(** * Conway's Game of Life: the simulation engine, embedded and verified

    The development follows the two source files of the repository:

    - [game_of_life.py]: class [GameOfLife] (the engine with the bounded
      undo history and the fixed, clamped boundary), the drawing and zooming
      of [GameView], and the methods of [MainWindow] that act on the game;
    - [GameOfLife.py]: the function [game_of_life] (the toroidal variant)
      and the set-up and mouse handling of [main].

    A numpy array of rank two is a list of rows.  Cells are integers.  The
    engine stores the literals 0 and 1 and copies of cells, which no element
    type changes; the cells of a pattern are converted to the element type
    of the grid when they are assigned, and the conversion is part of the
    model.  Indexing follows numpy: a negative index counts from the end, an
    index outside the extent raises [IndexError].  Methods that mutate the
    engine are state transformers that also report how the call ended. *)

From stdpp Require Import base list numbers strings.
From Stdlib Require Import ZArith Lia.

Local Open Scope Z_scope.

(** ** Exceptions and the outcome of a call *)

Inductive exn : Type :=
  | IndexError
  | ValueError
  | OSError.

Inductive outcome (A : Type) : Type :=
  | Return (a : A)
  | Raise (e : exn).

Arguments Return {A} a.
Arguments Raise {A} e.

#[global] Instance outcome_ret : MRet outcome := fun A a => Return a.

#[global] Instance outcome_bind : MBind outcome := fun A B k m =>
  match m with
  | Return a => k a
  | Raise e => Raise e
  end.

(** [for x in xs: s = body x s], stopping at the first exception. *)
Fixpoint for_in {A S : Type} (xs : list A) (body : A -> S -> outcome S) (s : S)
  : outcome S :=
  match xs with
  | [] => Return s
  | x :: xs' => s' ← body x s; for_in xs' body s'
  end.

(** Python's [range(n)]. *)
Definition range (n : nat) : list nat := seq 0 n.

(** ** Python lists used as stacks and queues *)

(** [l.pop()]: the last element and the list without it. *)
Fixpoint pop {A : Type} (l : list A) : option (list A * A) :=
  match l with
  | [] => None
  | x :: l' =>
      match pop l' with
      | None => Some ([], x)
      | Some (rest, y) => Some (x :: rest, y)
      end
  end.

(** [l.pop(0)] on a non-empty list: the list without its first element. *)
Definition pop0 {A : Type} (l : list A) : list A := tail l.

(** ** Arrays of rank two *)

Module Numpy.

(** The rows of the array, each the list of its cells. *)
Abbreviation ndarray := (list (list Z)).

(** [a.shape]; an array without rows is represented by [[]], its number of
    columns is then read as 0. *)
Definition shape (a : ndarray) : nat * nat :=
  (length a, match a with [] => 0%nat | r :: _ => length r end).

(** [np.zeros((h, w))]. *)
Definition zeros (h w : nat) : ndarray := replicate h (replicate w 0).

(** [a.copy()]: arrays are values here, a copy is the array itself and
    shares nothing with later updates of the original. *)
Definition copy (a : ndarray) : ndarray := a.

(** [a.fill(v)]. *)
Definition fill (a : ndarray) (v : Z) : ndarray :=
  (fun row : list Z => (fun _ : Z => v) <$> row) <$> a.

(** Position addressed by index [k] along an axis of extent [n]. *)
Definition py_index (n : nat) (k : Z) : outcome nat :=
  if decide (0 <= k < Z.of_nat n) then Return (Z.to_nat k)
  else if decide (- Z.of_nat n <= k < 0) then Return (Z.to_nat (k + Z.of_nat n))
  else Raise IndexError.

(** [a[i, j]]. *)
Definition getitem (a : ndarray) (i j : Z) : outcome Z :=
  r ← py_index (length a) i;
  match a !! r with
  | None => Raise IndexError
  | Some row =>
      c ← py_index (length row) j;
      match row !! c with
      | None => Raise IndexError
      | Some v => Return v
      end
  end.

(** [a[i, j] = v]. *)
Definition setitem (a : ndarray) (i j : Z) (v : Z) : outcome ndarray :=
  r ← py_index (length a) i;
  match a !! r with
  | None => Raise IndexError
  | Some row =>
      c ← py_index (length row) j;
      Return (<[r := <[c := v]> row]> a)
  end.

(** A slice bound [k] on an axis of extent [n], as Python normalises it. *)
Definition slice_bound (n : nat) (k : Z) : Z :=
  if decide (k < 0) then Z.max (k + Z.of_nat n) 0 else Z.min k (Z.of_nat n).

(** [l[lo:hi]]. *)
Definition py_slice {A : Type} (l : list A) (lo hi : Z) : list A :=
  let lo' := slice_bound (length l) lo in
  let hi' := slice_bound (length l) hi in
  take (Z.to_nat (hi' - lo')) (drop (Z.to_nat lo') l).

(** [a[ilo:ihi, jlo:jhi]]. *)
Definition slice2 (a : ndarray) (ilo ihi jlo jhi : Z) : ndarray :=
  (fun row : list Z => py_slice row jlo jhi) <$> py_slice a ilo ihi.

Definition Zsum (l : list Z) : Z := foldr Z.add 0 l.

(** [np.sum(a)]. *)
Definition sum (a : ndarray) : Z := Zsum (concat a).

(** One axis of [a[lo:hi] = p]: the extent [t] of the addressed slice must
    equal the extent [n] of the value, or the value has extent 1 and is
    repeated. *)
Definition broadcastable (n t : nat) : bool :=
  bool_decide (n = t) || bool_decide (n = 1%nat).

Definition bcast_index (n t k : nat) : nat :=
  if bool_decide (n = t) then k else 0%nat.

(** The conversion of an integer to [np.int8] that numpy applies when a
    value is assigned into an array of that element type: the value modulo
    256, taken from -128 to 127 (300 becomes 44). *)
Definition int8 (v : Z) : Z := (v + 128) `mod` 256 - 128.

(** [row[lo:hi] = prow] for a row of the array; [cast] is the conversion to
    the element type of the array. *)
Definition assign_row (cast : Z -> Z) (row : list Z) (lo hi : Z) (prow : list Z)
  : list Z :=
  let lo' := Z.to_nat (slice_bound (length row) lo) in
  let t := length (py_slice row lo hi) in
  take lo' row
    ++ ((fun k : nat => cast (default 0 (prow !! bcast_index (length prow) t k)))
          <$> range t)
    ++ drop (lo' + t) row.

(** [a[ilo:ihi, jlo:jhi] = p]; numpy refuses the assignment with
    [ValueError] when the shape of [p] cannot be broadcast to that of the
    slice, and then writes nothing.  [cast] is the conversion to the element
    type of [a]; [ncols] is the second component of [a.shape], which the list
    of rows does not show when there is no row. *)
Definition setslice2 (cast : Z -> Z) (ncols : nat) (a : ndarray)
    (ilo ihi jlo jhi : Z) (p : ndarray) : outcome ndarray :=
  let th := length (py_slice a ilo ihi) in
  let tw := length (py_slice (default (replicate ncols 0) (head a)) jlo jhi) in
  let '(ph, pw) := shape p in
  if broadcastable ph th && broadcastable pw tw then
    let lo' := Z.to_nat (slice_bound (length a) ilo) in
    Return
      (take lo' a
         ++ ((fun k : nat =>
                assign_row cast (default [] (a !! (lo' + k)%nat)) jlo jhi
                  (default [] (p !! bcast_index ph th k))) <$> range th)
         ++ drop (lo' + th) a)
  else Raise ValueError.

End Numpy.

Import Numpy.

(** ** [game_of_life.py]: class [GameOfLife] *)

Module Engine.

Record GameOfLife : Type := mkGameOfLife {
  width : nat;
  height : nat;
  grid : ndarray;
  generation : Z;
  history : list ndarray;
  boundary_type : string
}.

(** A method call: the outcome reported to the caller and the engine the
    call leaves behind (also when it raises). *)
Definition method (A : Type) : Type := GameOfLife -> outcome A * GameOfLife.

Definition set_grid (self : GameOfLife) (g : ndarray) : GameOfLife :=
  mkGameOfLife (width self) (height self) g (generation self) (history self)
    (boundary_type self).

Definition set_history (self : GameOfLife) (hs : list ndarray) : GameOfLife :=
  mkGameOfLife (width self) (height self) (grid self) (generation self) hs
    (boundary_type self).

Definition set_generation (self : GameOfLife) (n : Z) : GameOfLife :=
  mkGameOfLife (width self) (height self) (grid self) n (history self)
    (boundary_type self).

(** [GameOfLife(width, height)]; both default to 50. *)
Definition init (width height : nat) : GameOfLife :=
  mkGameOfLife width height (zeros height width) 0 [] "fixed".

Definition default_game : GameOfLife := init 50 50.

(** [_count_neighbors(i, j)]: the sum of the block of [self.grid] around
    the cell, cut at the edges, minus the cell. *)
Definition _count_neighbors (self : GameOfLife) (i j : Z) : outcome Z :=
  let block :=
    slice2 (grid self)
      (Z.max 0 (i - 1)) (Z.min (Z.of_nat (height self)) (i + 2))
      (Z.max 0 (j - 1)) (Z.min (Z.of_nat (width self)) (j + 2)) in
  c ← getitem (grid self) i j;
  Return (sum block - c).

(** The body of the two loops of [update] at cell [(i, j)]: it reads
    [self.grid] and writes [new_grid]. *)
Definition update_cell (self : GameOfLife) (i j : nat) (new_grid : ndarray)
  : outcome ndarray :=
  neighbors ← _count_neighbors self (Z.of_nat i) (Z.of_nat j);
  c ← getitem (grid self) (Z.of_nat i) (Z.of_nat j);
  if negb (c =? 0) then
    if (neighbors <? 2) || (3 <? neighbors)
    then setitem new_grid (Z.of_nat i) (Z.of_nat j) 0
    else Return new_grid
  else if neighbors =? 3
    then setitem new_grid (Z.of_nat i) (Z.of_nat j) 1
    else Return new_grid.

Definition update_loops (self : GameOfLife) (new_grid : ndarray) : outcome ndarray :=
  for_in (range (height self))
    (fun i ng => for_in (range (width self)) (fun j ng' => update_cell self i j ng') ng)
    new_grid.

(** [update()]. *)
Definition update : method unit := fun self =>
  let self := set_history self (history self ++ [copy (grid self)]) in
  let self :=
    if decide (50 < length (history self))%nat
    then set_history self (pop0 (history self))
    else self in
  match update_loops self (copy (grid self)) with
  | Raise e => (Raise e, self)
  | Return new_grid =>
      let self := set_grid self new_grid in
      (Return (), set_generation self (generation self + 1))
  end.

(** [toggle_cell(i, j)]; [not c] is [True] exactly when [c] is zero, and
    is stored as 1. *)
Definition toggle_cell (i j : Z) : method unit := fun self =>
  if bool_decide (0 <= i < Z.of_nat (height self))
     && bool_decide (0 <= j < Z.of_nat (width self))
  then
    match c ← getitem (grid self) i j;
          setitem (grid self) i j (if c =? 0 then 1 else 0) with
    | Raise e => (Raise e, self)
    | Return g => (Return (), set_grid self g)
    end
  else (Return (), self).

(** [clear()]. *)
Definition clear : method unit := fun self =>
  (Return (), set_grid self (fill (grid self) 0)).

(** [randomize()]; [draw i j] tells whether the random choice for cell
    [(i, j)] picked the second element of [[0, 1]]. *)
Definition randomize (draw : nat -> nat -> bool) : method unit := fun self =>
  let choice (b : bool) : Z := default 0 ([0; 1] !! (if b then 1 else 0)%nat) in
  (Return (),
   set_grid self
     ((fun i : nat => (fun j : nat => choice (draw i j)) <$> range (width self))
        <$> range (height self))).

(** [undo()]. *)
Definition undo : method bool := fun self =>
  match pop (history self) with
  | Some (rest, g) =>
      let self := set_grid (set_history self rest) g in
      (Return true, set_generation self (generation self - 1))
  | None => (Return false, self)
  end.

(** The mutating methods of the class, as requests. *)
Inductive op : Type :=
  | Update
  | ToggleCell (i j : Z)
  | Clear
  | Randomize (draw : nat -> nat -> bool)
  | Undo.

(** The engine after a request, whatever the outcome. *)
Definition exec (o : op) (self : GameOfLife) : GameOfLife :=
  match o with
  | Update => snd (update self)
  | ToggleCell i j => snd (toggle_cell i j self)
  | Clear => snd (clear self)
  | Randomize draw => snd (randomize draw self)
  | Undo => snd (undo self)
  end.

Definition run (os : list op) (self : GameOfLife) : GameOfLife :=
  foldl (fun s o => exec o s) self os.

(** Engines a program can hold: a constructed one after any requests. *)
Inductive reachable : GameOfLife -> Prop :=
  | reachable_init (w h : nat) : reachable (init w h)
  | reachable_exec (o : op) (self : GameOfLife) :
      reachable self -> reachable (exec o self).

(** [n] calls of [update] in a row. *)
Definition steps (n : nat) (self : GameOfLife) : GameOfLife :=
  Nat.iter n (fun s => snd (update s)) self.

(** [n] calls of [undo] in a row, with what each call returned. *)
Fixpoint undos (n : nat) (self : GameOfLife) : list (outcome bool) * GameOfLife :=
  match n with
  | O => ([], self)
  | S n' =>
      let '(r, self') := undo self in
      let '(rs, self'') := undos n' self' in
      (r :: rs, self'')
  end.

End Engine.

(** ** [game_of_life.py]: class [GameView] *)

Module GameView.

Import Engine.

(** [wheelEvent(event)] on [self.cell_size]; [delta_y] is
    [event.angleDelta().y()]. *)
Definition wheelEvent (delta_y : Z) (cell_size : Z) : Z :=
  if 0 <? delta_y then Z.min 50 (cell_size + 2) else Z.max 5 (cell_size - 2).

(** The size of the cells of a new view. *)
Definition initial_cell_size : Z := 20.

(** What [draw_grid] puts into the scene. *)
Inductive item : Type :=
  | RectItem (x y w h : Z)
  | LineItem (x1 y1 x2 y2 : Z).

(** The first pair of loops of [draw_grid]: a rectangle for every cell that
    is not zero. *)
Definition draw_cells (cell_size : Z) (game : GameOfLife) (scene : list item)
  : outcome (list item) :=
  for_in (range (height game))
    (fun i sc =>
       for_in (range (width game))
         (fun j sc' =>
            c ← getitem (grid game) (Z.of_nat i) (Z.of_nat j);
            if negb (c =? 0)
            then Return (sc' ++ [RectItem (Z.of_nat j * cell_size)
                                   (Z.of_nat i * cell_size)
                                   (cell_size - 1) (cell_size - 1)])
            else Return sc')
         sc)
    scene.

(** The two loops under [if self.show_grid]. *)
Definition draw_lines (cell_size : Z) (game : GameOfLife) : list item :=
  ((fun i : nat =>
      LineItem 0 (Z.of_nat i * cell_size)
        (Z.of_nat (width game) * cell_size) (Z.of_nat i * cell_size))
     <$> range (height game + 1))
  ++ ((fun j : nat =>
         LineItem (Z.of_nat j * cell_size) 0
           (Z.of_nat j * cell_size) (Z.of_nat (height game) * cell_size))
        <$> range (width game + 1)).

(** [draw_grid(game)]: the scene is cleared and filled again; the result is
    the list of its items in the order they were added and the scene
    rectangle [(x, y, w, h)] set at the end. *)
Definition draw_grid (cell_size : Z) (show_grid : bool) (game : GameOfLife)
  : outcome (list item * (Z * Z * Z * Z)) :=
  cells ← draw_cells cell_size game [];
  Return (cells ++ (if show_grid then draw_lines cell_size game else []),
          (0, 0, Z.of_nat (width game) * cell_size,
           Z.of_nat (height game) * cell_size)).

End GameView.

(** ** [game_of_life.py]: the methods of [MainWindow] that act on the game *)

Module MainWindow.

Import Engine.

(** What the file dialog and [np.load] deliver to [load_state]: no file
    name (the dialog was dismissed), or a file name on which [np.load]
    returns an array or raises. *)
Inductive chosen_file : Type :=
  | NoFile
  | File (loaded : outcome ndarray).

(** [self.view.draw_grid(self.game)], the statement that ends the methods
    of the window, as the game and the caller see it: the outcome of the
    call.  What is put into the scene depends on the size of the cells and on
    [show_grid] of the view; whether the call returns does not, and the call
    is taken at the values a new view has. *)
Definition redraw (game : GameOfLife) : outcome unit :=
  _ ← GameView.draw_grid GameView.initial_cell_size true game;
  Return ().

(** A method that has changed the game into [game] and ends by drawing
    it. *)
Definition draw_and_return (game : GameOfLife) : outcome unit * GameOfLife :=
  (redraw game, game).

(** [load_state()] on [self.game]: the array is installed before the view
    is drawn. *)
Definition load_state (f : chosen_file) : method unit := fun game =>
  match f with
  | NoFile => (Return (), game)
  | File (Raise e) => (Raise e, game)
  | File (Return a) => draw_and_return (set_grid game a)
  end.

(** The origin of the placement along one axis:
    [max(0, min(i, extent - size))]. *)
Definition clamp_origin (extent size : nat) (i : Z) : Z :=
  Z.max 0 (Z.min i (Z.of_nat extent - Z.of_nat size)).

(** The last four statements of [apply_pattern], from the target [(i, j)]
    of the pattern's top-left corner: the clamping, the assignment and the
    drawing.  The cells of the pattern are converted to [np.int8], the
    element type the grid has from [np.zeros(..., dtype=np.int8)] on through
    [update], [toggle_cell], [clear], [undo] and clicks; [randomize] and a
    load install arrays that numpy creates with another element type, to
    which 0 and 1 are converted unchanged as well, so that for a pattern of
    zeros and ones the element type makes no difference.  The number of
    columns of a grid without rows is the recorded width, as it is for every
    grid the engine makes. *)
Definition place (pattern : ndarray) (i j : Z) : method unit := fun game =>
  let '(ph, pw) := shape pattern in
  let i := clamp_origin (height game) ph i in
  let j := clamp_origin (width game) pw j in
  match setslice2 int8 (width game) (grid game)
          i (i + Z.of_nat ph) j (j + Z.of_nat pw) pattern with
  | Raise e => (Raise e, game)
  | Return g => draw_and_return (set_grid game g)
  end.

(** [apply_pattern(pattern)]; [(ci, cj)] is the cell under the centre of
    the view. *)
Definition apply_pattern (pattern : ndarray) (ci cj : Z) : method unit :=
  let '(ph, pw) := shape pattern in
  place pattern (ci - Z.of_nat ph `div` 2) (cj - Z.of_nat pw `div` 2).

Definition glider : ndarray := [[0; 1; 0]; [0; 0; 1]; [1; 1; 1]].
Definition block : ndarray := [[1; 1]; [1; 1]].
Definition beacon : ndarray :=
  [[1; 1; 0; 0]; [1; 1; 0; 0]; [0; 0; 1; 1]; [0; 0; 1; 1]].
Definition beehive : ndarray := [[0; 1; 1; 0]; [1; 0; 0; 1]; [0; 1; 1; 0]].

End MainWindow.

(** ** [GameOfLife.py]: the toroidal variant *)

Module Torus.

(** The eight-term sum of [game_of_life]; [n] and [m] are the module's
    globals of the same names.  It is evaluated inside the two loops only,
    where both are positive. *)
Definition neighbors (n m : nat) (grid : ndarray) (i j : Z) : outcome Z :=
  let n' := Z.of_nat n in
  let m' := Z.of_nat m in
  a ← getitem grid (i - 1) (j - 1);
  b ← getitem grid (i - 1) j;
  c ← getitem grid (i - 1) ((j + 1) `mod` m');
  d ← getitem grid i (j - 1);
  e ← getitem grid i ((j + 1) `mod` m');
  f ← getitem grid ((i + 1) `mod` n') (j - 1);
  g ← getitem grid ((i + 1) `mod` n') j;
  h ← getitem grid ((i + 1) `mod` n') ((j + 1) `mod` m');
  Return (a + b + c + d + e + f + g + h).

Definition game_of_life_cell (n m : nat) (grid : ndarray) (i j : nat)
  (new_grid : ndarray) : outcome ndarray :=
  nb ← neighbors n m grid (Z.of_nat i) (Z.of_nat j);
  c ← getitem grid (Z.of_nat i) (Z.of_nat j);
  if c =? 1 then
    if (nb <? 2) || (3 <? nb)
    then setitem new_grid (Z.of_nat i) (Z.of_nat j) 0
    else Return new_grid
  else if nb =? 3
    then setitem new_grid (Z.of_nat i) (Z.of_nat j) 1
    else Return new_grid.

(** [game_of_life(grid)]. *)
Definition game_of_life (n m : nat) (grid : ndarray) : outcome ndarray :=
  for_in (range n)
    (fun i ng => for_in (range m) (fun j ng' => game_of_life_cell n m grid i j ng') ng)
    (copy grid).

End Torus.

(** ** [game_of_life.py]: the rest of the engine and of the window *)

Module Queries.

Import Engine.

(** The dictionary [get_statistics] returns.  The density is the float
    quotient of [alive_cells] by [total_cells]; the record keeps the two
    operands of that division. *)
Record statistics : Type := mkStatistics {
  stat_generation : Z;
  alive_cells : Z;
  total_cells : Z;
  density_operands : Z * Z
}.

(** [get_statistics()]. *)
Definition get_statistics (self : GameOfLife) : statistics :=
  mkStatistics (generation self) (sum (grid self))
    (Z.of_nat (width self) * Z.of_nat (height self))
    (sum (grid self), Z.of_nat (width self) * Z.of_nat (height self)).

End Queries.

Module Window.

Import Engine MainWindow.

(** [handle_cell_click(i, j, is_left)]: the write goes straight to the
    array, with numpy's indexing and no test of the indices; then the view
    is drawn. *)
Definition handle_cell_click (i j : Z) (is_left : bool) : method unit := fun game =>
  match setitem (grid game) i j (if is_left then 1 else 0) with
  | Raise e => (Raise e, game)
  | Return g => draw_and_return (set_grid game g)
  end.

(** [new_game()]: [self.game] becomes a new [GameOfLife()]. *)
Definition new_game : method unit := fun _ => (Return (), default_game).

(** The keys of [self.patterns], in the order of [init_patterns]. *)
Inductive pattern_name : Type :=
  | Glider
  | Block
  | Beacon
  | Beehive.

(** [self.patterns[name].pattern]. *)
Definition patterns (name : pattern_name) : ndarray :=
  match name with
  | Glider => glider
  | Block => block
  | Beacon => beacon
  | Beehive => beehive
  end.

(** What the user can do to [self.game] through the window: the timer tick
    ([update_game]), a click or drag on the view, the buttons and keys for
    clearing and random filling, the undo menu entry, an entry of the pattern
    menu, the new-game entry, and loading a file. *)
Inductive action : Type :=
  | Tick
  | Click (i j : Z) (is_left : bool)
  | ClearGame
  | RandomizeGame (draw : nat -> nat -> bool)
  | UndoAction
  | ApplyPattern (name : pattern_name) (ci cj : Z)
  | NewGame
  | LoadState (f : chosen_file).

(** The game after an action, whatever the outcome of the call. *)
Definition perform (a : action) (game : GameOfLife) : GameOfLife :=
  match a with
  | Tick => snd (update game)
  | Click i j is_left => snd (handle_cell_click i j is_left game)
  | ClearGame => snd (clear game)
  | RandomizeGame draw => snd (randomize draw game)
  | UndoAction => snd (undo game)
  | ApplyPattern name ci cj => snd (apply_pattern (patterns name) ci cj game)
  | NewGame => snd (new_game game)
  | LoadState f => snd (load_state f game)
  end.

Definition session (acts : list action) : GameOfLife :=
  foldl (fun g a => perform a g) default_game acts.

(** A method of the engine followed by the drawing of the view, which is
    reached only when the method returns.  The status bar, where a method
    of the window writes it afterwards, only reads the game. *)
Definition then_draw {A : Type} (m : method A) : method unit := fun game =>
  match m game with
  | (Raise e, game') => (Raise e, game')
  | (Return _, game') => draw_and_return game'
  end.

(** [update_game()], [clear_game()], [randomize_game()]. *)
Definition update_game : method unit := then_draw update.
Definition clear_game : method unit := then_draw clear.
Definition randomize_game (draw : nat -> nat -> bool) : method unit :=
  then_draw (randomize draw).

(** [undo_action()]: the view is drawn only when [undo] returned [True]. *)
Definition undo_action : method unit := fun game =>
  match undo game with
  | (Return true, game') => draw_and_return game'
  | (Return false, game') => (Return (), game')
  | (Raise e, game') => (Raise e, game')
  end.

(** The call behind an action, with its outcome. *)
Definition call (a : action) : method unit :=
  match a with
  | Tick => update_game
  | Click i j is_left => handle_cell_click i j is_left
  | ClearGame => clear_game
  | RandomizeGame draw => randomize_game draw
  | UndoAction => undo_action
  | ApplyPattern name ci cj => apply_pattern (patterns name) ci cj
  | NewGame => then_draw new_game
  | LoadState f => load_state f
  end.

End Window.

(** ** [GameOfLife.py]: the set-up and the mouse handlers of [main] *)

Module Pygame.

(** [pos[0]//cell_size, pos[1]//cell_size].  [main] reaches its loop only
    with a cell size that is not zero. *)
Definition cell_at (cell_size : Z) (pos : Z * Z) : Z * Z :=
  (pos.1 `div` cell_size, pos.2 `div` cell_size).

(** The test of the MOUSEMOTION branch. *)
Definition motion_guard (cell_size x_size y_size : Z) (ij : Z * Z) : bool :=
  (ij.1 * cell_size <? x_size) && (ij.2 * cell_size <? y_size)
  && (-1 <? ij.1) && (-1 <? ij.2).

(** The MOUSEBUTTONDOWN branch on the grid: button 1 makes the cell alive,
    button 3 makes it dead, without any test. *)
Definition mouse_button_down (cell_size : Z) (pos : Z * Z) (button : Z)
    (grid : ndarray) : outcome ndarray :=
  let '(i, j) := cell_at cell_size pos in
  if button =? 1 then setitem grid i j 1
  else if button =? 2 then Return grid
  else if button =? 3 then setitem grid i j 0
  else Return grid.

(** The MOUSEMOTION branch: [left] and [right] tell whether
    [event.buttons[0]] and [event.buttons[2]] are 1. *)
Definition mouse_motion (cell_size x_size y_size : Z) (pos : Z * Z)
    (left right : bool) (grid : ndarray) : outcome ndarray :=
  let '(i, j) := cell_at cell_size pos in
  g ← (if left && motion_guard cell_size x_size y_size (i, j)
       then setitem grid i j 1 else Return grid);
  if right && motion_guard cell_size x_size y_size (i, j)
  then setitem g i j 0 else Return g.

(** [np.random.choice(black_white, size=(n, m))] with [black_white] chosen
    from the answer to "random(y/n)"; [draw i j] tells whether the choice
    for cell [(i, j)] picked the second element. *)
Definition initial_grid (random_image : string) (draw : nat -> nat -> bool)
    (n m : nat) : ndarray :=
  let black_white : list Z :=
    if bool_decide (random_image = "y") then [0; 1] else [0; 0] in
  (fun i : nat =>
     (fun j : nat => default 0 (black_white !! (if draw i j then 1 else 0)%nat))
       <$> range m) <$> range n.

(** [k] generations of the running simulation. *)
Fixpoint generations (n m : nat) (k : nat) (grid : ndarray) : outcome ndarray :=
  match k with
  | O => Return grid
  | S k' => g ← Torus.game_of_life n m grid; generations n m k' g
  end.

End Pygame.

(** ** Notions used to state the properties *)

Import Engine.

(** The array has [h] rows of [w] cells each. *)
Definition rect (h w : nat) (a : ndarray) : Prop :=
  length a = h ∧ Forall (fun row : list Z => length row = w) a.

(** The cell at row [i], column [j]; 0 outside the array. *)
Definition cell (a : ndarray) (i j : nat) : Z :=
  default 0 (row ← a !! i; row !! j).

(** Every cell is 0 (dead) or 1 (alive). *)
Definition binary (a : ndarray) : Prop :=
  Forall (Forall (fun v : Z => v = 0 ∨ v = 1)) a.

Definition all_dead (a : ndarray) : Prop :=
  Forall (Forall (fun v : Z => v = 0)) a.

(** The grid of the engine has the extent the engine records. *)
Definition well_shaped (self : GameOfLife) : Prop :=
  rect (height self) (width self) (grid self).

(** [a] with the cell at [(i, j)] replaced by [v]. *)
Definition upd (a : ndarray) (i j : nat) (v : Z) : ndarray :=
  alter (fun row : list Z => <[j := v]> row) i a.

(** The eight offsets of the Moore neighbourhood. *)
Definition offsets8 : list (Z * Z) :=
  [(-1, -1); (-1, 0); (-1, 1); (0, -1); (0, 1); (1, -1); (1, 0); (1, 1)].

Definition in_grid (h w : nat) (p : Z * Z) : bool :=
  bool_decide (0 <= p.1 < Z.of_nat h) && bool_decide (0 <= p.2 < Z.of_nat w).

(** The eight positions around [(i, j)], inside the grid or not. *)
Definition around (i j : Z) : list (Z * Z) :=
  (fun d : Z * Z => (i + d.1, j + d.2)) <$> offsets8.

(** Neighbour positions of [(i, j)] under the fixed boundary: those of the
    eight that lie inside the grid. *)
Definition moore_fixed (h w : nat) (i j : Z) : list (Z * Z) :=
  filter (fun p => in_grid h w p = true) (around i j).

(** Neighbour positions of [(i, j)] on the torus: the eight, each taken
    modulo the extent. *)
Definition moore_wrap (h w : nat) (i j : Z) : list (Z * Z) :=
  (fun d : Z * Z => ((i + d.1) `mod` Z.of_nat h, (j + d.2) `mod` Z.of_nat w))
    <$> offsets8.

Definition cellZ (a : ndarray) (p : Z * Z) : Z :=
  cell a (Z.to_nat p.1) (Z.to_nat p.2).

(** How many of the positions [ps] hold an alive cell. *)
Definition count_alive (a : ndarray) (ps : list (Z * Z)) : Z :=
  Z.of_nat (length (filter (fun p => cellZ a p = 1) ps)).

(** The count of alive neighbours under the fixed boundary. *)
Definition fixed_count (h w : nat) (a : ndarray) (i j : nat) : Z :=
  count_alive a (moore_fixed h w (Z.of_nat i) (Z.of_nat j)).

(** The count of alive neighbours on the torus. *)
Definition wrap_count (h w : nat) (a : ndarray) (i j : nat) : Z :=
  count_alive a (moore_wrap h w (Z.of_nat i) (Z.of_nat j)).

(** The contribution of position [k] of [l], nothing outside [l]. *)
Definition win {A : Type} (f : A -> Z) (l : list A) (k : Z) : Z :=
  if decide (0 <= k) then default 0 (f <$> l !! Z.to_nat k) else 0.

(** The cell at a position given by integers; dead outside the grid. *)
Definition cell_fixed (h w : nat) (a : ndarray) (p : Z * Z) : Z :=
  if in_grid h w p then cellZ a p else 0.

(** What the loop body of [update] leaves in a cell that held [c] and has
    [nb] as its count: the branches of the source, the cell being kept
    where no branch writes. *)
Definition next_fixed (c nb : Z) : Z :=
  if negb (c =? 0) then (if (nb <? 2) || (3 <? nb) then 0 else c)
  else if nb =? 3 then 1 else c.

(** The same for the loop body of [game_of_life]. *)
Definition next_wrap (c nb : Z) : Z :=
  if c =? 1 then (if (nb <? 2) || (3 <? nb) then 0 else c)
  else if nb =? 3 then 1 else c.

(** The history after [update] has recorded the snapshot [g]. *)
Definition pushed (hs : list ndarray) (g : ndarray) : list ndarray :=
  if decide (50 < length (hs ++ [g]))%nat then pop0 (hs ++ [g]) else hs ++ [g].

(** Conway's rule as a relation between the state [c] of a cell, the count
    [nb] of its alive neighbours and its next state [c']: an alive cell stays
    alive exactly with two or three alive neighbours, a dead cell becomes
    alive exactly with three, and the next state is dead otherwise. *)
Definition conway (c nb c' : Z) : Prop :=
  (c = 1 -> (c' = 1 ↔ nb = 2 ∨ nb = 3))
  ∧ (c = 0 -> (c' = 1 ↔ nb = 3))
  ∧ (c' = 0 ∨ c' = 1).

(** What holds of every engine a program can hold. *)
Definition invariant (self : GameOfLife) : Prop :=
  well_shaped self
  ∧ binary (grid self)
  ∧ Forall (fun g => rect (height self) (width self) g ∧ binary g) (history self)
  ∧ (length (history self) <= 50)%nat
  ∧ Z.of_nat (length (history self)) <= generation self.

(** How many cells of the array are alive. *)
Definition population (a : ndarray) : Z :=
  Z.of_nat (length (filter (fun v : Z => v = 1) (concat a))).

(** The engine with the [d] oldest snapshots dropped from its history. *)
Definition trim (d : nat) (self : GameOfLife) : GameOfLife :=
  set_history self (drop d (history self)).

(** Window actions that cannot break the extent or the cell values: all
    but the loading of an array that is not a binary 50 by 50 matrix. *)
Definition sane (a : Window.action) : Prop :=
  match a with
  | Window.LoadState (MainWindow.File (Return arr)) => rect 50 50 arr ∧ binary arr
  | _ => True
  end.

(** Window actions that edit the grid without taking a step. *)
Definition is_edit (a : Window.action) : bool :=
  match a with
  | Window.Click _ _ _ | Window.ClearGame | Window.RandomizeGame _
  | Window.ApplyPattern _ _ _ | Window.LoadState _ => true
  | Window.Tick | Window.UndoAction | Window.NewGame => false
  end.

(** The rectangle [(x, y, w, h)] lies inside the rectangle [outer]. *)
Definition inside (outer : Z * Z * Z * Z) (x y w h : Z) : Prop :=
  let '(ox, oy, ow, oh) := outer in
  ox <= x ∧ x + w <= ox + ow ∧ oy <= y ∧ y + h <= oy + oh.

(** The rectangles of the alive cells of row [i], left to right. *)
Definition row_rects (cs : Z) (a : ndarray) (i w : nat) : list GameView.item :=
  concat
    ((fun j : nat =>
        if negb (cell a i j =? 0)
        then [GameView.RectItem (Z.of_nat j * cs) (Z.of_nat i * cs) (cs - 1) (cs - 1)]
        else []) <$> range w).

(** The rectangles of the alive cells of the grid, row by row. *)
Definition cell_rects (cs : Z) (game : GameOfLife) : list GameView.item :=
  concat ((fun i : nat => row_rects cs (grid game) i (width game))
            <$> range (height game)).

(** Two calls end alike: both return, or both raise the same exception. *)
Definition same_end {S T : Type} (x : outcome S) (y : outcome T) : Prop :=
  match x, y with
  | Return _, Return _ => True
  | Raise e, Raise e' => e = e'
  | _, _ => False
  end.

(** The cells of the first and last row and column are dead. *)
Definition border_dead (h w : nat) (a : ndarray) : Prop :=
  ∀ i j, (i < h)%nat -> (j < w)%nat ->
    (i = 0 ∨ i = h - 1 ∨ j = 0 ∨ j = w - 1)%nat -> cell a i j = 0.

(** ** Arrays: access inside the extent *)

Section Arrays.

Context (h w : nat).
Implicit Types (a : ndarray) (i j : nat) (v : Z).

Lemma rect_lookup a i :
  rect h w a -> (i < h)%nat -> ∃ row, a !! i = Some row ∧ length row = w.
Proof.
  intros [Hlen Hrows] Hi.
  destruct (lookup_lt_is_Some_2 a i) as [row Hrow]; [lia|].
  exists row. split; [done|].
  by apply (Forall_lookup_1 _ _ _ _ Hrows Hrow).
Qed.

Lemma py_index_in (n : nat) (k : nat) :
  (k < n)%nat -> py_index n (Z.of_nat k) = Return k.
Proof.
  intros Hk. unfold py_index.
  rewrite decide_True by lia. by rewrite Nat2Z.id.
Qed.

Lemma getitem_in a i j :
  rect h w a -> (i < h)%nat -> (j < w)%nat ->
  getitem a (Z.of_nat i) (Z.of_nat j) = Return (cell a i j).
Proof.
  intros Ha Hi Hj.
  destruct (rect_lookup a i Ha Hi) as (row & Hrow & Hlen).
  destruct (lookup_lt_is_Some_2 row j) as [v Hv]; [lia|].
  unfold getitem, cell. destruct Ha as [Hl _].
  rewrite py_index_in by lia. cbn. rewrite Hrow.
  rewrite py_index_in by lia. cbn. by rewrite Hv.
Qed.

Lemma setitem_in a i j v :
  rect h w a -> (i < h)%nat -> (j < w)%nat ->
  setitem a (Z.of_nat i) (Z.of_nat j) v = Return (upd a i j v).
Proof.
  intros Ha Hi Hj.
  destruct (rect_lookup a i Ha Hi) as (row & Hrow & Hlen).
  unfold setitem, upd. destruct Ha as [Hl _].
  rewrite py_index_in by lia. cbn. rewrite Hrow.
  rewrite py_index_in by lia. cbn. f_equal.
  apply list_eq. intros k.
  destruct (decide (k = i)) as [->|Hne].
  - rewrite list_lookup_insert_eq by lia.
    rewrite list_lookup_alter_eq. by rewrite Hrow.
  - rewrite list_lookup_insert_ne by done.
    by rewrite list_lookup_alter_ne.
Qed.

Lemma upd_rect a i j v : rect h w a -> rect h w (upd a i j v).
Proof.
  intros [Hl Hrows]. split.
  - unfold upd. by rewrite length_alter.
  - unfold upd. apply Forall_alter; [done|].
    intros row _ Hrow. by rewrite length_insert.
Qed.

Lemma cell_upd_eq a i j v :
  rect h w a -> (i < h)%nat -> (j < w)%nat -> cell (upd a i j v) i j = v.
Proof.
  intros Ha Hi Hj.
  destruct (rect_lookup a i Ha Hi) as (row & Hrow & Hlen).
  unfold cell, upd. rewrite list_lookup_alter_eq, Hrow. cbn.
  by rewrite list_lookup_insert_eq by lia.
Qed.

Lemma cell_upd_ne a i j i' j' v :
  (i', j') ≠ (i, j) -> cell (upd a i j v) i' j' = cell a i' j'.
Proof.
  intros Hne. unfold cell, upd.
  destruct (decide (i' = i)) as [->|Hi].
  - rewrite list_lookup_alter_eq. destruct (a !! i) as [row|]; [|done].
    cbn. rewrite list_lookup_insert_ne; [done|congruence].
  - by rewrite list_lookup_alter_ne.
Qed.

(** Two arrays of the same extent with the same cells are equal. *)
Lemma rect_ext a b :
  rect h w a -> rect h w b ->
  (∀ i j, (i < h)%nat -> (j < w)%nat -> cell a i j = cell b i j) ->
  a = b.
Proof.
  intros Ha Hb Hcells. apply list_eq. intros i.
  destruct (decide (i < h)%nat) as [Hi|Hi].
  - destruct (rect_lookup a i Ha Hi) as (ra & Hra & Hla).
    destruct (rect_lookup b i Hb Hi) as (rb & Hrb & Hlb).
    rewrite Hra, Hrb. f_equal. apply list_eq. intros j.
    destruct (decide (j < w)%nat) as [Hj|Hj].
    + specialize (Hcells i j Hi Hj). unfold cell in Hcells.
      rewrite Hra, Hrb in Hcells. cbn in Hcells.
      destruct (lookup_lt_is_Some_2 ra j) as [x Hx]; [lia|].
      destruct (lookup_lt_is_Some_2 rb j) as [y Hy]; [lia|].
      rewrite Hx, Hy in *. cbn in Hcells. by subst.
    + rewrite !lookup_ge_None_2 by lia. done.
  - destruct Ha as [Hla _], Hb as [Hlb _].
    rewrite !lookup_ge_None_2 by lia. done.
Qed.

Lemma binary_cell a i j : binary a -> cell a i j = 0 ∨ cell a i j = 1.
Proof.
  intros Hb. unfold cell.
  destruct (a !! i) as [row|] eqn:Hrow; cbn; [|by left].
  destruct (row !! j) as [v|] eqn:Hv; cbn; [|by left].
  pose proof (Forall_lookup_1 _ _ _ _ Hb Hrow) as Hr.
  by apply (Forall_lookup_1 _ _ _ _ Hr Hv).
Qed.

Lemma binary_of_cells a :
  rect h w a ->
  (∀ i j, (i < h)%nat -> (j < w)%nat -> cell a i j = 0 ∨ cell a i j = 1) ->
  binary a.
Proof.
  intros Ha Hcells. apply Forall_lookup_2. intros i row Hrow.
  apply Forall_lookup_2. intros j v Hv.
  pose proof (lookup_lt_Some _ _ _ Hrow) as Hi.
  pose proof (lookup_lt_Some _ _ _ Hv) as Hj.
  destruct Ha as [Hl Hrows].
  pose proof (Forall_lookup_1 _ _ _ _ Hrows Hrow) as Hlen. cbn in Hlen.
  specialize (Hcells i j ltac:(lia) ltac:(lia)).
  unfold cell in Hcells. rewrite Hrow in Hcells. cbn in Hcells.
  by rewrite Hv in Hcells.
Qed.

Lemma all_dead_cell a i j : all_dead a -> cell a i j = 0.
Proof.
  intros Hd. unfold cell.
  destruct (a !! i) as [row|] eqn:Hrow; cbn; [|done].
  destruct (row !! j) as [v|] eqn:Hv; cbn; [|done].
  pose proof (Forall_lookup_1 _ _ _ _ Hd Hrow) as Hr.
  by apply (Forall_lookup_1 _ _ _ _ Hr Hv).
Qed.

Lemma all_dead_of_cells a :
  rect h w a ->
  (∀ i j, (i < h)%nat -> (j < w)%nat -> cell a i j = 0) ->
  all_dead a.
Proof.
  intros Ha Hcells. apply Forall_lookup_2. intros i row Hrow.
  apply Forall_lookup_2. intros j v Hv.
  pose proof (lookup_lt_Some _ _ _ Hrow) as Hi.
  pose proof (lookup_lt_Some _ _ _ Hv) as Hj.
  destruct Ha as [Hl Hrows].
  pose proof (Forall_lookup_1 _ _ _ _ Hrows Hrow) as Hlen. cbn in Hlen.
  specialize (Hcells i j ltac:(lia) ltac:(lia)).
  unfold cell in Hcells. rewrite Hrow in Hcells. cbn in Hcells.
  by rewrite Hv in Hcells.
Qed.

End Arrays.

(** ** Loops *)

Lemma bind_Return {A B : Type} (a : A) (k : A -> outcome B) :
  (Return a ≫= k) = k a.
Proof. reflexivity. Qed.

Section Loops.

Context {S : Type}.

Lemma for_in_seq_inv (P : nat -> S -> Prop) (body : nat -> S -> outcome S) (n : nat) :
  (∀ k t, (k < n)%nat -> P k t -> ∃ t', body k t = Return t' ∧ P (Datatypes.S k) t') ->
  ∀ len a s, (a + len = n)%nat -> P a s ->
  ∃ t, for_in (seq a len) body s = Return t ∧ P n t.
Proof.
  intros Hbody. induction len as [|len IH]; intros a s Hn Hs.
  - exists s. split; [done|]. by replace n with a by lia.
  - destruct (Hbody a s ltac:(lia) Hs) as (s' & Hrun & Hs').
    destruct (IH (Datatypes.S a) s' ltac:(lia) Hs') as (t & Hrest & Ht).
    exists t. split; [|done]. cbn. rewrite Hrun. cbn. done.
Qed.

Lemma for_in_range_inv (P : nat -> S -> Prop) (body : nat -> S -> outcome S) (n : nat) (s : S) :
  P 0%nat s ->
  (∀ k t, (k < n)%nat -> P k t -> ∃ t', body k t = Return t' ∧ P (Datatypes.S k) t') ->
  ∃ t, for_in (range n) body s = Return t ∧ P n t.
Proof.
  intros Hs Hbody. apply (for_in_seq_inv P body n Hbody n 0%nat s); [lia|done].
Qed.

End Loops.

(** A row-major sweep that rewrites each cell once, from its own content. *)
Lemma sweep_spec (h w : nat) (step : nat -> nat -> ndarray -> outcome ndarray)
    (f : nat -> nat -> Z -> Z) (g0 : ndarray) :
  rect h w g0 ->
  (∀ i j g, (i < h)%nat -> (j < w)%nat -> rect h w g ->
     ∃ g', step i j g = Return g' ∧ rect h w g'
           ∧ cell g' i j = f i j (cell g i j)
           ∧ ∀ i' j', (i', j') ≠ (i, j) -> cell g' i' j' = cell g i' j') ->
  ∃ g, for_in (range h)
         (fun i ng => for_in (range w) (fun j ng' => step i j ng') ng) g0 = Return g
       ∧ rect h w g
       ∧ ∀ i j, (i < h)%nat -> (j < w)%nat -> cell g i j = f i j (cell g0 i j).
Proof.
  intros Hg0 Hstep.
  set (Q := fun (i j : nat) (g : ndarray) =>
    rect h w g ∧
    ∀ i' j', (i' < h)%nat -> (j' < w)%nat ->
      cell g i' j' =
        if decide (i' < i ∨ (i' = i ∧ j' < j))%nat
        then f i' j' (cell g0 i' j') else cell g0 i' j').
  destruct (for_in_range_inv (fun i g => Q i 0%nat g)
              (fun i ng => for_in (range w) (fun j ng' => step i j ng') ng) h g0)
    as (g & Hrun & Hrect & Hcells).
  - split; [done|]. intros i' j' _ _. rewrite decide_False by lia. done.
  - intros i g Hi HQ.
    destruct (for_in_range_inv (fun j g => Q i j g)
                (fun j ng' => step i j ng') w g HQ) as (g' & Hrun & Hrect & Hcells).
    + intros j t Hj [Ht Hcells].
      destruct (Hstep i j t Hi Hj Ht) as (t' & Hrun & Ht' & Hnew & Hold).
      exists t'. split; [done|]. split; [done|].
      intros i' j' Hi' Hj'.
      destruct (decide ((i', j') = (i, j))) as [Heq|Hne].
      * injection Heq as -> ->. rewrite Hnew, (Hcells i j Hi Hj).
        rewrite decide_False by lia. rewrite decide_True by lia. done.
      * rewrite (Hold i' j' Hne), (Hcells i' j' Hi' Hj').
        assert (i' ≠ i ∨ j' ≠ j) as Hd.
        { destruct (decide (i' = i)); [right|left]; congruence. }
        destruct (decide (i' < i ∨ i' = i ∧ j' < j)%nat);
          [rewrite decide_True by lia|rewrite decide_False by lia]; done.
    + exists g'. split; [done|]. split; [done|].
      intros i' j' Hi' Hj'. rewrite (Hcells i' j' Hi' Hj').
      destruct (decide (i' < i ∨ i' = i ∧ j' < w)%nat);
        [rewrite decide_True by lia|rewrite decide_False by lia]; done.
  - exists g. split; [done|]. split; [done|].
    intros i j Hi Hj. rewrite (Hcells i j Hi Hj).
    rewrite decide_True by lia. done.
Qed.

(** ** The block sum of [_count_neighbors] *)

Lemma Zsum_app (l1 l2 : list Z) : Zsum (l1 ++ l2) = Zsum l1 + Zsum l2.
Proof.
  induction l1 as [|x l1 IH]; [done|].
  change (Zsum ((x :: l1) ++ l2)) with (x + Zsum (l1 ++ l2)).
  change (Zsum (x :: l1)) with (x + Zsum l1). lia.
Qed.

Lemma Zsum_concat (ls : list (list Z)) : Zsum (concat ls) = Zsum (Zsum <$> ls).
Proof.
  induction ls as [|l ls IH]; [done|].
  change (Zsum (concat (l :: ls))) with (Zsum (l ++ concat ls)).
  change (Zsum (Zsum <$> l :: ls)) with (Zsum l + Zsum (Zsum <$> ls)).
  rewrite Zsum_app. lia.
Qed.

Lemma take3_sum {A : Type} (f : A -> Z) (l : list A) :
  Zsum (f <$> take 3 l)
  = default 0 (f <$> l !! 0%nat) + default 0 (f <$> l !! 1%nat)
    + default 0 (f <$> l !! 2%nat).
Proof. destruct l as [|x [|y [|z l]]]; cbn; rewrite ?take_0; cbn; lia. Qed.

Lemma window_sum {A : Type} (f : A -> Z) (l : list A) (i : nat) :
  (i < length l)%nat ->
  Zsum (f <$> py_slice l (Z.max 0 (Z.of_nat i - 1))
                         (Z.min (Z.of_nat (length l)) (Z.of_nat i + 2)))
  = win f l (Z.of_nat i - 1) + win f l (Z.of_nat i) + win f l (Z.of_nat i + 1).
Proof.
  intros Hi. unfold py_slice, slice_bound.
  rewrite !decide_False by lia.
  destruct i as [|k].
  - unfold win. rewrite decide_False by lia. rewrite !decide_True by lia.
    replace (Z.to_nat (Z.min (Z.max 0 (Z.of_nat 0 - 1)) (Z.of_nat (length l))))
      with 0%nat by lia.
    cbn [drop]. change (Z.to_nat (Z.of_nat 0)) with 0%nat.
    change (Z.to_nat (Z.of_nat 0 + 1)) with 1%nat.
    destruct l as [|x [|y l]]; cbn [length] in *; [lia| |].
    + done.
    + replace (Z.to_nat _) with 2%nat by lia. cbn. rewrite take_0. cbn. lia.
  - unfold win. rewrite !decide_True by lia.
    replace (Z.to_nat (Z.min (Z.max 0 (Z.of_nat (S k) - 1)) (Z.of_nat (length l))))
      with k by lia.
    replace (Z.to_nat (Z.of_nat (S k) - 1)) with (k + 0)%nat by lia.
    replace (Z.to_nat (Z.of_nat (S k))) with (k + 1)%nat by lia.
    replace (Z.to_nat (Z.of_nat (S k) + 1)) with (k + 2)%nat by lia.
    rewrite <- !lookup_drop, <- take3_sum.
    destruct (decide (k + 3 <= length l)%nat) as [Hlen|Hlen].
    + by replace (Z.to_nat _) with 3%nat by lia.
    + rewrite !take_ge; [done| |]; rewrite length_drop; lia.
Qed.

Lemma win_row (h w : nat) (a : ndarray) (x : Z) (j : nat) :
  rect h w a -> (j < w)%nat ->
  win (fun row : list Z =>
         Zsum (py_slice row (Z.max 0 (Z.of_nat j - 1))
                            (Z.min (Z.of_nat w) (Z.of_nat j + 2)))) a x
  = cell_fixed h w a (x, Z.of_nat j - 1) + cell_fixed h w a (x, Z.of_nat j)
    + cell_fixed h w a (x, Z.of_nat j + 1).
Proof.
  intros Ha Hj. unfold win, cell_fixed, in_grid, cellZ. cbn [fst snd].
  destruct (decide (0 <= x)) as [Hx|Hx].
  2: { rewrite !bool_decide_eq_false_2 by lia. done. }
  destruct (decide (x < Z.of_nat h)) as [Hx'|Hx'].
  2: { rewrite !(bool_decide_eq_false_2 (0 <= x < _)) by lia. cbn.
       destruct Ha as [Hl _]. rewrite lookup_ge_None_2 by lia. done. }
  destruct (rect_lookup h w a (Z.to_nat x) Ha ltac:(lia)) as (row & Hrow & Hlen).
  rewrite Hrow. cbn [fmap option_fmap option_map default].
  rewrite <- (list_fmap_id (py_slice row _ _)), <- Hlen.
  rewrite (window_sum id row j) by lia.
  rewrite (bool_decide_eq_true_2 (0 <= x < _)) by lia. cbn [andb].
  unfold win, cell. rewrite Hrow. cbn [mbind option_bind].
  rewrite !option_fmap_id.
  assert (∀ y, (if decide (0 <= y) then default 0 (row !! Z.to_nat y) else 0)
               = if bool_decide (0 <= y < Z.of_nat w)
                 then default 0 (row !! Z.to_nat y) else 0) as Hcol.
  { intros y. destruct (decide (0 <= y)).
    - destruct (decide (y < Z.of_nat w)).
      + by rewrite bool_decide_eq_true_2 by lia.
      + rewrite bool_decide_eq_false_2 by lia.
        rewrite lookup_ge_None_2 by lia. done.
    - by rewrite bool_decide_eq_false_2 by lia. }
  rewrite <- Hlen in Hcol. unfold id. rewrite !Hcol. done.
Qed.

(** The value [_count_neighbors] computes inside the grid: the sum over
    the eight neighbour positions, outside ones counting 0. *)
Lemma block_sum (h w : nat) (a : ndarray) (i j : nat) :
  rect h w a -> (i < h)%nat -> (j < w)%nat ->
  sum (slice2 a (Z.max 0 (Z.of_nat i - 1)) (Z.min (Z.of_nat h) (Z.of_nat i + 2))
                (Z.max 0 (Z.of_nat j - 1)) (Z.min (Z.of_nat w) (Z.of_nat j + 2)))
    - cell a i j
  = Zsum (cell_fixed h w a <$> around (Z.of_nat i) (Z.of_nat j)).
Proof.
  intros Ha Hi Hj. unfold sum, slice2.
  rewrite Zsum_concat, <- list_fmap_compose.
  destruct Ha as [Hl Hrows]. rewrite <- Hl.
  rewrite (window_sum _ a i) by lia. rewrite Hl.
  unfold compose.
  rewrite !(win_row h w a _ j) by done.
  assert (cell a i j = cell_fixed h w a (Z.of_nat i, Z.of_nat j)) as ->.
  { unfold cell_fixed, in_grid, cellZ. cbn [fst snd].
    rewrite !bool_decide_eq_true_2 by lia. cbn. by rewrite !Nat2Z.id. }
  cbn. rewrite !Z.add_0_r.
  replace (Z.of_nat i + -1) with (Z.of_nat i - 1) by lia.
  replace (Z.of_nat j + -1) with (Z.of_nat j - 1) by lia.
  lia.
Qed.

Lemma count_alive_cons (a : ndarray) (p : Z * Z) (ps : list (Z * Z)) :
  count_alive a (p :: ps)
  = (if decide (cellZ a p = 1) then 1 else 0) + count_alive a ps.
Proof.
  unfold count_alive. rewrite filter_cons.
  destruct (decide (cellZ a p = 1)); cbn [length]; lia.
Qed.

Lemma count_alive_bounds (a : ndarray) (ps : list (Z * Z)) :
  0 <= count_alive a ps <= Z.of_nat (length ps).
Proof.
  unfold count_alive. pose proof (length_filter (fun p => cellZ a p = 1) ps). lia.
Qed.

(** On a binary grid the sum of the cells at positions is the number of
    alive ones among them. *)
Lemma Zsum_binary (a : ndarray) (ps : list (Z * Z)) :
  binary a -> Zsum (cellZ a <$> ps) = count_alive a ps.
Proof.
  intros Hb. induction ps as [|p ps IH]; [done|].
  rewrite count_alive_cons, <- IH.
  change (Zsum (cellZ a <$> p :: ps)) with (cellZ a p + Zsum (cellZ a <$> ps)).
  assert (cellZ a p = 0 ∨ cellZ a p = 1) as Hp by apply binary_cell, Hb.
  destruct (decide (cellZ a p = 1)); lia.
Qed.

Lemma Zsum_cell_fixed (h w : nat) (a : ndarray) (ps : list (Z * Z)) :
  Zsum (cell_fixed h w a <$> ps)
  = Zsum (cellZ a <$> filter (fun p => in_grid h w p = true) ps).
Proof.
  induction ps as [|p ps IH]; [done|].
  rewrite filter_cons.
  change (Zsum (cell_fixed h w a <$> p :: ps))
    with (cell_fixed h w a p + Zsum (cell_fixed h w a <$> ps)).
  rewrite IH. unfold cell_fixed.
  destruct (in_grid h w p) eqn:Hin.
  - rewrite decide_True by done. done.
  - rewrite decide_False by done. lia.
Qed.

(** ** The engine: counting and one generation *)

Section EngineStep.

Context (self : GameOfLife) (Hshape : well_shaped self).

Lemma count_neighbors_sum (i j : nat) :
  (i < height self)%nat -> (j < width self)%nat ->
  _count_neighbors self (Z.of_nat i) (Z.of_nat j)
  = Return (Zsum (cell_fixed (height self) (width self) (grid self)
                    <$> around (Z.of_nat i) (Z.of_nat j))).
Proof.
  intros Hi Hj. unfold _count_neighbors.
  rewrite (getitem_in (height self) (width self)) by done. cbn.
  f_equal. by apply block_sum.
Qed.

(** On a binary grid the count is the number of alive neighbours inside
    the grid. *)
Lemma count_neighbors_fixed (i j : nat) :
  binary (grid self) -> (i < height self)%nat -> (j < width self)%nat ->
  _count_neighbors self (Z.of_nat i) (Z.of_nat j)
  = Return (fixed_count (height self) (width self) (grid self) i j).
Proof.
  intros Hb Hi Hj. rewrite count_neighbors_sum by done. f_equal.
  rewrite Zsum_cell_fixed. by apply Zsum_binary.
Qed.

Lemma update_cell_spec (i j : nat) (ng : ndarray) :
  (i < height self)%nat -> (j < width self)%nat ->
  rect (height self) (width self) ng ->
  ∃ nb ng',
    _count_neighbors self (Z.of_nat i) (Z.of_nat j) = Return nb
    ∧ update_cell self i j ng = Return ng'
    ∧ rect (height self) (width self) ng'
    ∧ cell ng' i j
      = (if negb (cell (grid self) i j =? 0)
         then (if (nb <? 2) || (3 <? nb) then 0 else cell ng i j)
         else if nb =? 3 then 1 else cell ng i j)
    ∧ ∀ i' j', (i', j') ≠ (i, j) -> cell ng' i' j' = cell ng i' j'.
Proof.
  intros Hi Hj Hng.
  exists (Zsum (cell_fixed (height self) (width self) (grid self)
                  <$> around (Z.of_nat i) (Z.of_nat j))).
  unfold update_cell.
  rewrite count_neighbors_sum, bind_Return by done.
  rewrite (getitem_in (height self) (width self)), bind_Return by done.
  generalize (Zsum (cell_fixed (height self) (width self) (grid self)
                      <$> around (Z.of_nat i) (Z.of_nat j))).
  intros nb. set (c := cell (grid self) i j).
  destruct (negb (c =? 0)).
  - destruct ((nb <? 2) || (3 <? nb)).
    + rewrite (setitem_in (height self) (width self)) by done.
      eexists. split; [done|]. split; [done|]. split; [by apply upd_rect|]. split.
      * by apply (cell_upd_eq (height self) (width self)).
      * intros i' j' Hne. by apply cell_upd_ne.
    + exists ng. by repeat (split; [done|]).
  - destruct (nb =? 3).
    + rewrite (setitem_in (height self) (width self)) by done.
      eexists. split; [done|]. split; [done|]. split; [by apply upd_rect|]. split.
      * by apply (cell_upd_eq (height self) (width self)).
      * intros i' j' Hne. by apply cell_upd_ne.
    + exists ng. by repeat (split; [done|]).
Qed.

Lemma update_loops_spec :
  ∃ g, update_loops self (copy (grid self)) = Return g
       ∧ rect (height self) (width self) g
       ∧ ∀ i j, (i < height self)%nat -> (j < width self)%nat ->
           ∃ nb, _count_neighbors self (Z.of_nat i) (Z.of_nat j) = Return nb
                 ∧ cell g i j = next_fixed (cell (grid self) i j) nb.
Proof.
  destruct (sweep_spec (height self) (width self) (update_cell self)
              (fun i j x =>
                 match _count_neighbors self (Z.of_nat i) (Z.of_nat j) with
                 | Return nb =>
                     if negb (cell (grid self) i j =? 0)
                     then (if (nb <? 2) || (3 <? nb) then 0 else x)
                     else if nb =? 3 then 1 else x
                 | Raise _ => x
                 end)
              (grid self) Hshape) as (g & Hrun & Hrect & Hcells).
  - intros i j ng Hi Hj Hng.
    destruct (update_cell_spec i j ng Hi Hj Hng)
      as (nb & ng' & Hnb & Hrun & Hrect & Hnew & Hold).
    exists ng'. rewrite Hnb. done.
  - exists g. split; [done|]. split; [done|].
    intros i j Hi Hj.
    destruct (update_cell_spec i j (grid self) Hi Hj Hshape)
      as (nb & _ & Hnb & _).
    exists nb. split; [done|].
    rewrite (Hcells i j Hi Hj), Hnb. done.
Qed.

End EngineStep.

(** [update] on a well-shaped engine returns normally; it records the old
    grid, installs the next generation and counts it. *)
Lemma update_spec (self : GameOfLife) :
  well_shaped self ->
  ∃ g, update self
       = (Return (),
          mkGameOfLife (width self) (height self) g (generation self + 1)
            (pushed (history self) (grid self)) (boundary_type self))
       ∧ rect (height self) (width self) g
       ∧ ∀ i j, (i < height self)%nat -> (j < width self)%nat ->
           ∃ nb, _count_neighbors self (Z.of_nat i) (Z.of_nat j) = Return nb
                 ∧ cell g i j = next_fixed (cell (grid self) i j) nb.
Proof.
  intros Hshape.
  set (self' := set_history self (pushed (history self) (grid self))).
  destruct (update_loops_spec self' Hshape) as (g & Hrun & Hrect & Hcells).
  exists g. split; [|split; [done|exact Hcells]].
  unfold update, copy in *. cbn [history set_history grid].
  assert ((if decide (50 < length (history self ++ [grid self]))%nat
           then set_history (set_history self (history self ++ [grid self]))
                  (pop0 (history self ++ [grid self]))
           else set_history self (history self ++ [grid self])) = self') as ->.
  { unfold self', pushed. by destruct (decide _). }
  rewrite Hrun. done.
Qed.

(** ** The torus: counting and one generation *)

Section TorusStep.

Context (n m : nat) (a : ndarray) (Ha : rect n m a).

Lemma py_index_wrap (k : nat) (x : Z) :
  - Z.of_nat k <= x < Z.of_nat k ->
  py_index k x = Return (Z.to_nat (x `mod` Z.of_nat k)).
Proof.
  intros Hx. unfold py_index.
  destruct (decide (0 <= x < Z.of_nat k)) as [Hin|Hout].
  - by rewrite Z.mod_small by lia.
  - rewrite decide_True by lia. do 2 f_equal.
    apply (Z.mod_unique_pos _ _ (-1)); lia.
Qed.

Lemma getitem_wrap (x y : Z) :
  - Z.of_nat n <= x < Z.of_nat n -> - Z.of_nat m <= y < Z.of_nat m ->
  getitem a x y = Return (cellZ a (x `mod` Z.of_nat n, y `mod` Z.of_nat m)).
Proof.
  intros Hx Hy. unfold getitem, cellZ, cell. cbn [fst snd].
  destruct Ha as [Hl Hrows]. rewrite Hl.
  rewrite py_index_wrap, bind_Return by done.
  assert (0 <= x `mod` Z.of_nat n < Z.of_nat n) as Hxm
    by (apply Z.mod_pos_bound; lia).
  assert (0 <= y `mod` Z.of_nat m < Z.of_nat m) as Hym
    by (apply Z.mod_pos_bound; lia).
  destruct (rect_lookup n m a (Z.to_nat (x `mod` Z.of_nat n)) Ha ltac:(lia))
    as (row & Hrow & Hlen).
  rewrite Hrow, Hlen. rewrite py_index_wrap, bind_Return by done.
  destruct (lookup_lt_is_Some_2 row (Z.to_nat (y `mod` Z.of_nat m))) as [v Hv];
    [lia|].
  cbn. by rewrite Hv.
Qed.

Lemma neighbors_sum (i j : nat) :
  (i < n)%nat -> (j < m)%nat ->
  Torus.neighbors n m a (Z.of_nat i) (Z.of_nat j)
  = Return (Zsum (cellZ a <$> moore_wrap n m (Z.of_nat i) (Z.of_nat j))).
Proof.
  intros Hi Hj. unfold Torus.neighbors.
  assert (0 <= (Z.of_nat i + 1) `mod` Z.of_nat n < Z.of_nat n) as Hxm
    by (apply Z.mod_pos_bound; lia).
  assert (0 <= (Z.of_nat j + 1) `mod` Z.of_nat m < Z.of_nat m) as Hym
    by (apply Z.mod_pos_bound; lia).
  set (i1 := (Z.of_nat i + 1) `mod` Z.of_nat n) in *.
  set (j1 := (Z.of_nat j + 1) `mod` Z.of_nat m) in *.
  rewrite (getitem_wrap (Z.of_nat i - 1) (Z.of_nat j - 1)), bind_Return by lia.
  rewrite (getitem_wrap (Z.of_nat i - 1) (Z.of_nat j)), bind_Return by lia.
  rewrite (getitem_wrap (Z.of_nat i - 1) j1), bind_Return by lia.
  rewrite (getitem_wrap (Z.of_nat i) (Z.of_nat j - 1)), bind_Return by lia.
  rewrite (getitem_wrap (Z.of_nat i) j1), bind_Return by lia.
  rewrite (getitem_wrap i1 (Z.of_nat j - 1)), bind_Return by lia.
  rewrite (getitem_wrap i1 (Z.of_nat j)), bind_Return by lia.
  rewrite (getitem_wrap i1 j1), bind_Return by lia.
  subst i1 j1.
  unfold moore_wrap, offsets8, Zsum. cbn [fmap list_fmap foldr fst snd].
  rewrite !Z.mod_mod by lia. rewrite !Z.add_0_r.
  replace (Z.of_nat i + -1) with (Z.of_nat i - 1) by lia.
  replace (Z.of_nat j + -1) with (Z.of_nat j - 1) by lia.
  f_equal. lia.
Qed.

(** On a binary grid the sum is the number of alive cells among the eight
    positions taken modulo the extent. *)
Lemma neighbors_wrap (i j : nat) :
  binary a -> (i < n)%nat -> (j < m)%nat ->
  Torus.neighbors n m a (Z.of_nat i) (Z.of_nat j) = Return (wrap_count n m a i j).
Proof.
  intros Hb Hi Hj. rewrite neighbors_sum by done. f_equal.
  by apply Zsum_binary.
Qed.

Lemma game_of_life_cell_spec (i j : nat) (ng : ndarray) :
  (i < n)%nat -> (j < m)%nat -> rect n m ng ->
  ∃ nb ng',
    Torus.neighbors n m a (Z.of_nat i) (Z.of_nat j) = Return nb
    ∧ Torus.game_of_life_cell n m a i j ng = Return ng'
    ∧ rect n m ng'
    ∧ cell ng' i j
      = (if cell a i j =? 1
         then (if (nb <? 2) || (3 <? nb) then 0 else cell ng i j)
         else if nb =? 3 then 1 else cell ng i j)
    ∧ ∀ i' j', (i', j') ≠ (i, j) -> cell ng' i' j' = cell ng i' j'.
Proof.
  intros Hi Hj Hng.
  exists (Zsum (cellZ a <$> moore_wrap n m (Z.of_nat i) (Z.of_nat j))).
  unfold Torus.game_of_life_cell.
  rewrite neighbors_sum, bind_Return by done.
  rewrite (getitem_in n m), bind_Return by done.
  generalize (Zsum (cellZ a <$> moore_wrap n m (Z.of_nat i) (Z.of_nat j))).
  intros nb. set (c := cell a i j).
  destruct (c =? 1).
  - destruct ((nb <? 2) || (3 <? nb)).
    + rewrite (setitem_in n m) by done.
      eexists. split; [done|]. split; [done|]. split; [by apply upd_rect|]. split.
      * by apply (cell_upd_eq n m).
      * intros i' j' Hne. by apply cell_upd_ne.
    + exists ng. by repeat (split; [done|]).
  - destruct (nb =? 3).
    + rewrite (setitem_in n m) by done.
      eexists. split; [done|]. split; [done|]. split; [by apply upd_rect|]. split.
      * by apply (cell_upd_eq n m).
      * intros i' j' Hne. by apply cell_upd_ne.
    + exists ng. by repeat (split; [done|]).
Qed.

Lemma game_of_life_spec :
  ∃ g, Torus.game_of_life n m a = Return g
       ∧ rect n m g
       ∧ ∀ i j, (i < n)%nat -> (j < m)%nat ->
           ∃ nb, Torus.neighbors n m a (Z.of_nat i) (Z.of_nat j) = Return nb
                 ∧ cell g i j = next_wrap (cell a i j) nb.
Proof.
  destruct (sweep_spec n m (Torus.game_of_life_cell n m a)
              (fun i j x =>
                 match Torus.neighbors n m a (Z.of_nat i) (Z.of_nat j) with
                 | Return nb =>
                     if cell a i j =? 1
                     then (if (nb <? 2) || (3 <? nb) then 0 else x)
                     else if nb =? 3 then 1 else x
                 | Raise _ => x
                 end)
              a Ha) as (g & Hrun & Hrect & Hcells).
  - intros i j ng Hi Hj Hng.
    destruct (game_of_life_cell_spec i j ng Hi Hj Hng)
      as (nb & ng' & Hnb & Hrun & Hrect & Hnew & Hold).
    exists ng'. rewrite Hnb. done.
  - exists g. split; [done|]. split; [done|].
    intros i j Hi Hj.
    destruct (game_of_life_cell_spec i j a Hi Hj Ha) as (nb & _ & Hnb & _).
    exists nb. split; [done|].
    rewrite (Hcells i j Hi Hj), Hnb. done.
Qed.

End TorusStep.

(** ** The rule on binary cells *)

Lemma next_fixed_conway (c nb : Z) :
  c = 0 ∨ c = 1 -> conway c nb (next_fixed c nb).
Proof.
  intros Hc. unfold conway, next_fixed.
  destruct Hc as [-> | ->]; cbn [negb Z.eqb];
    destruct (Z.ltb_spec nb 2), (Z.ltb_spec 3 nb), (Z.eqb_spec nb 3);
    cbn [orb]; lia.
Qed.

Lemma next_wrap_conway (c nb : Z) :
  c = 0 ∨ c = 1 -> conway c nb (next_wrap c nb).
Proof.
  intros Hc. unfold conway, next_wrap.
  destruct Hc as [-> | ->]; cbn [Z.eqb Pos.eqb];
    destruct (Z.ltb_spec nb 2), (Z.ltb_spec 3 nb), (Z.eqb_spec nb 3);
    cbn [orb]; lia.
Qed.

Lemma all_dead_binary (a : ndarray) : all_dead a -> binary a.
Proof.
  intros Hd. eapply Forall_impl; [exact Hd|].
  intros row Hrow. eapply Forall_impl; [exact Hrow|].
  intros v ->. by left.
Qed.

Lemma count_alive_all_dead (a : ndarray) (ps : list (Z * Z)) :
  all_dead a -> count_alive a ps = 0.
Proof.
  intros Hd. induction ps as [|p ps IH]; [done|].
  rewrite count_alive_cons, IH. unfold cellZ.
  rewrite (all_dead_cell a _ _ Hd). rewrite decide_False by lia. done.
Qed.

(** One generation on a binary grid: the call returns and the new grid is
    binary, of the same extent. *)
Lemma update_binary (self : GameOfLife) :
  well_shaped self -> binary (grid self) ->
  ∃ g, update self
       = (Return (),
          mkGameOfLife (width self) (height self) g (generation self + 1)
            (pushed (history self) (grid self)) (boundary_type self))
       ∧ rect (height self) (width self) g
       ∧ binary g.
Proof.
  intros Hshape Hbin.
  destruct (update_spec self Hshape) as (g & Hrun & Hrect & Hcells).
  exists g. split; [done|]. split; [done|].
  apply (binary_of_cells (height self) (width self)); [done|].
  intros i j Hi Hj. destruct (Hcells i j Hi Hj) as (nb & _ & ->).
  by destruct (next_fixed_conway (cell (grid self) i j) nb
                 (binary_cell _ i j Hbin)) as (_ & _ & Hc).
Qed.

(** ** C1 *)

(** C1.  One generation is computed from the grid as it was before the
    step.  For the engine ([update], fixed boundary) and for the toroidal
    variant ([game_of_life]) alike, on a binary grid of the recorded extent
    the call returns, the new grid is binary and of the same extent, and the
    new state of every cell is given by Conway's rule from the old state of
    the cell and the count of its alive neighbours in the old grid: an alive
    cell stays alive iff the count is 2 or 3, a dead cell becomes alive iff
    the count is 3, and the cell is dead otherwise.  The count is the number
    the code computes, [_count_neighbors] or the sum of [game_of_life], and
    it is the number of alive cells among the neighbour positions: those of
    the eight that lie inside the grid for the engine, the eight taken
    modulo the extent on the torus.  In particular a grid with no alive cell
    is followed by a grid with no alive cell. *)
Theorem C1_step_rule (self : GameOfLife) (n m : nat) (a : ndarray) :
  well_shaped self -> binary (grid self) -> rect n m a -> binary a ->
  (∃ self',
     update self = (Return (), self')
     ∧ rect (height self) (width self) (grid self')
     ∧ binary (grid self')
     ∧ (∀ i j, (i < height self)%nat -> (j < width self)%nat ->
          ∃ nb, _count_neighbors self (Z.of_nat i) (Z.of_nat j) = Return nb
                ∧ nb = fixed_count (height self) (width self) (grid self) i j
                ∧ conway (cell (grid self) i j) nb (cell (grid self') i j))
     ∧ (all_dead (grid self) -> all_dead (grid self')))
  ∧ (∃ g,
       Torus.game_of_life n m a = Return g
       ∧ rect n m g
       ∧ binary g
       ∧ (∀ i j, (i < n)%nat -> (j < m)%nat ->
            ∃ nb, Torus.neighbors n m a (Z.of_nat i) (Z.of_nat j) = Return nb
                  ∧ nb = wrap_count n m a i j
                  ∧ conway (cell a i j) nb (cell g i j))
       ∧ (all_dead a -> all_dead g)).
Proof.
  intros Hshape Hbin Ha Hba. split.
  - destruct (update_spec self Hshape) as (g & Hrun & Hrect & Hcells).
    eexists. split; [exact Hrun|]. cbn [grid].
    assert (∀ i j, (i < height self)%nat -> (j < width self)%nat ->
              ∃ nb, _count_neighbors self (Z.of_nat i) (Z.of_nat j) = Return nb
                    ∧ nb = fixed_count (height self) (width self) (grid self) i j
                    ∧ conway (cell (grid self) i j) nb (cell g i j)) as Hrule.
    { intros i j Hi Hj. destruct (Hcells i j Hi Hj) as (nb & Hnb & Hc).
      exists nb. split; [done|]. split.
      - rewrite (count_neighbors_fixed self Hshape i j Hbin Hi Hj) in Hnb.
        congruence.
      - rewrite Hc. apply next_fixed_conway, binary_cell, Hbin. }
    split; [done|]. split; [|split; [done|]].
    + apply (binary_of_cells (height self) (width self)); [done|].
      intros i j Hi Hj.
      destruct (Hrule i j Hi Hj) as (nb & _ & _ & _ & _ & Hc). done.
    + intros Hdead.
      apply (all_dead_of_cells (height self) (width self)); [done|].
      intros i j Hi Hj.
      destruct (Hrule i j Hi Hj) as (nb & _ & -> & _ & Hborn & Hc).
      unfold fixed_count in Hborn.
      rewrite (count_alive_all_dead _ _ Hdead) in Hborn.
      specialize (Hborn (all_dead_cell _ i j Hdead)). lia.
  - destruct (game_of_life_spec n m a Ha) as (g & Hrun & Hrect & Hcells).
    exists g. split; [exact Hrun|].
    assert (∀ i j, (i < n)%nat -> (j < m)%nat ->
              ∃ nb, Torus.neighbors n m a (Z.of_nat i) (Z.of_nat j) = Return nb
                    ∧ nb = wrap_count n m a i j
                    ∧ conway (cell a i j) nb (cell g i j)) as Hrule.
    { intros i j Hi Hj. destruct (Hcells i j Hi Hj) as (nb & Hnb & Hc).
      exists nb. split; [done|]. split.
      - rewrite (neighbors_wrap n m a Ha i j Hba Hi Hj) in Hnb. congruence.
      - rewrite Hc. apply next_wrap_conway, binary_cell, Hba. }
    split; [done|]. split; [|split; [done|]].
    + apply (binary_of_cells n m); [done|].
      intros i j Hi Hj.
      destruct (Hrule i j Hi Hj) as (nb & _ & _ & _ & _ & Hc). done.
    + intros Hdead.
      apply (all_dead_of_cells n m); [done|].
      intros i j Hi Hj.
      destruct (Hrule i j Hi Hj) as (nb & _ & -> & _ & Hborn & Hc).
      unfold wrap_count in Hborn.
      rewrite (count_alive_all_dead _ _ Hdead) in Hborn.
      specialize (Hborn (all_dead_cell _ i j Hdead)). lia.
Qed.

(** Closed facts about concrete arrays and engines, by evaluation. *)
Ltac by_eval :=
  repeat match goal with |- _ ∧ _ => split end;
  first
    [ reflexivity
    | lia
    | apply (bool_decide_unpack _); vm_compute; exact I ].

Lemma C1_step_rule_witness :
  let self := snd (MainWindow.place MainWindow.glider 0 0 (init 5 5)) in
  let a := [[0; 1; 0]] in
  (well_shaped self ∧ binary (grid self) ∧ rect 1 3 a ∧ binary a)
  ∧ (∃ self', update self = (Return (), self') ∧ binary (grid self'))
  ∧ (∃ g, Torus.game_of_life 1 3 a = Return g ∧ binary g).
Proof.
  intros self a.
  assert (well_shaped self ∧ binary (grid self) ∧ rect 1 3 a ∧ binary a)
    as Hhyps by (unfold well_shaped, rect, binary; by_eval).
  split; [exact Hhyps|].
  destruct Hhyps as (H1 & H2 & H3 & H4).
  destruct (C1_step_rule self 1 3 a H1 H2 H3 H4)
    as [(self' & Hrun & _ & Hbin & _) (g & Hg & _ & Hbg & _)].
  split; [exists self'; exact (conj Hrun Hbin)|exists g; exact (conj Hg Hbg)].
Defined.

(** ** The stack discipline of the history *)

Lemma pop_snoc {A : Type} (l : list A) (x : A) : pop (l ++ [x]) = Some (l, x).
Proof.
  induction l as [|y l IH]; [done|].
  cbn [app pop]. by rewrite IH.
Qed.

Lemma pop_nil {A : Type} : pop (@nil A) = None.
Proof. done. Qed.

Lemma pop_Some {A : Type} (l rest : list A) (x : A) :
  pop l = Some (rest, x) -> l = rest ++ [x].
Proof.
  destruct (decide (l = [])) as [->|Hne]; [done|].
  destruct (exists_last Hne) as (l' & y & ->).
  rewrite pop_snoc. by intros [= -> ->].
Qed.

Lemma pushed_snoc (hs : list ndarray) (g : ndarray) :
  ∃ hs', pushed hs g = hs' ++ [g]
         ∧ ((length hs < 50)%nat ∧ hs' = hs ∨ (50 <= length hs)%nat ∧ hs' = tail hs).
Proof.
  unfold pushed. rewrite length_app. cbn [length].
  destruct (decide (50 < length hs + 1)%nat) as [Hfull|Hroom].
  - destruct hs as [|h hs]; [cbn in Hfull; lia|].
    exists hs. split; [done|]. right. split; [lia|done].
  - exists hs. split; [done|]. left. split; [lia|done].
Qed.

Lemma pushed_length (hs : list ndarray) (g : ndarray) :
  (length hs <= 50)%nat ->
  length (pushed hs g) = Nat.min 50 (length hs + 1).
Proof.
  intros Hle. destruct (pushed_snoc hs g) as (hs' & -> & [[Hlt ->]|[Hge ->]]);
    rewrite length_app; cbn [length]; [lia|].
  destruct hs; cbn [tail length] in *; lia.
Qed.

(** ** The methods on a well-shaped engine *)

Lemma toggle_cell_outside (self : GameOfLife) (i j : Z) :
  ¬ (0 <= i < Z.of_nat (height self) ∧ 0 <= j < Z.of_nat (width self)) ->
  toggle_cell i j self = (Return (), self).
Proof.
  intros Hout. unfold toggle_cell.
  destruct (bool_decide (0 <= i < Z.of_nat (height self))) eqn:Hi;
    destruct (bool_decide (0 <= j < Z.of_nat (width self))) eqn:Hj; try done.
  apply bool_decide_eq_true in Hi, Hj. tauto.
Qed.

Lemma toggle_cell_inside (self : GameOfLife) (i j : Z) :
  well_shaped self ->
  0 <= i < Z.of_nat (height self) -> 0 <= j < Z.of_nat (width self) ->
  toggle_cell i j self
  = (Return (),
     set_grid self
       (upd (grid self) (Z.to_nat i) (Z.to_nat j)
          (if cell (grid self) (Z.to_nat i) (Z.to_nat j) =? 0 then 1 else 0))).
Proof.
  intros Hshape Hi Hj. unfold toggle_cell.
  rewrite !bool_decide_eq_true_2 by done. cbn [andb].
  rewrite <- (Z2Nat.id i), <- (Z2Nat.id j) by lia.
  rewrite (getitem_in (height self) (width self)), bind_Return by (done || lia).
  rewrite (setitem_in (height self) (width self)) by (done || lia).
  by rewrite !Nat2Z.id.
Qed.

Lemma upd_binary (a : ndarray) (i j : nat) (v : Z) :
  binary a -> v = 0 ∨ v = 1 -> binary (upd a i j v).
Proof.
  intros Hb Hv. unfold upd. apply Forall_alter; [done|].
  intros row _ Hrow. by apply Forall_insert.
Qed.

Lemma fill_rect (h w : nat) (a : ndarray) (v : Z) : rect h w a -> rect h w (fill a v).
Proof.
  intros [Hl Hrows]. split.
  - unfold fill. by rewrite length_fmap.
  - unfold fill. apply Forall_fmap. eapply Forall_impl; [exact Hrows|].
    intros row Hrow. cbn. by rewrite length_fmap.
Qed.

Lemma fill_zero_dead (a : ndarray) : all_dead (fill a 0).
Proof.
  unfold all_dead, fill. apply Forall_fmap, Forall_true. intros row. cbn.
  apply Forall_fmap, Forall_true. done.
Qed.

Lemma randomize_grid (draw : nat -> nat -> bool) (self : GameOfLife) :
  rect (height self) (width self) (grid (snd (randomize draw self)))
  ∧ binary (grid (snd (randomize draw self))).
Proof.
  cbn [randomize snd set_grid grid]. unfold range. split; [split|].
  - by rewrite length_fmap, length_seq.
  - apply Forall_fmap, Forall_true. intros i. cbn.
    by rewrite length_fmap, length_seq.
  - apply Forall_fmap, Forall_true. intros i. cbn.
    apply Forall_fmap, Forall_true. intros j. cbn.
    destruct (draw i j); cbn; [by right|by left].
Qed.

(** ** The invariant of the engine *)

Lemma zeros_rect (h w : nat) : rect h w (zeros h w).
Proof.
  split; unfold zeros.
  - by rewrite length_replicate.
  - apply Forall_replicate. by rewrite length_replicate.
Qed.

Lemma zeros_dead (h w : nat) : all_dead (zeros h w).
Proof. unfold all_dead, zeros. by do 2 apply Forall_replicate. Qed.

Lemma init_invariant (w h : nat) : invariant (init w h).
Proof.
  unfold invariant, well_shaped. cbn.
  split; [apply zeros_rect|]. split; [apply all_dead_binary, zeros_dead|].
  split; [constructor|]. split; lia.
Qed.

Lemma update_invariant (self : GameOfLife) :
  invariant self ->
  ∃ g, update self
       = (Return (),
          mkGameOfLife (width self) (height self) g (generation self + 1)
            (pushed (history self) (grid self)) (boundary_type self))
       ∧ invariant (snd (update self)).
Proof.
  intros (Hshape & Hbin & Hhist & Hlen & Hgen).
  destruct (update_binary self Hshape Hbin) as (g & Hrun & Hrect & Hbg).
  exists g. split; [done|]. rewrite Hrun. cbn [snd].
  unfold invariant, well_shaped. cbn [grid height width history generation].
  split; [done|]. split; [done|].
  pose proof (pushed_length (history self) (grid self) Hlen) as Hpl.
  destruct (pushed_snoc (history self) (grid self)) as (hs' & Heq & Hcases).
  split; [|split; lia].
  rewrite Heq. apply Forall_app. split; [|by apply Forall_singleton].
  destruct Hcases as [[_ ->]|[_ ->]]; [done|by apply Forall_tail].
Qed.

Lemma undo_invariant (self : GameOfLife) :
  invariant self -> invariant (snd (undo self)).
Proof.
  intros Hinv. unfold undo.
  destruct (pop (history self)) as [[rest g]|] eqn:Hpop; cbn [snd]; [|done].
  destruct Hinv as (Hshape & Hbin & Hhist & Hlen & Hgen).
  apply pop_Some in Hpop. rewrite Hpop in Hhist, Hlen, Hgen.
  rewrite length_app in Hlen, Hgen. cbn [length] in Hlen, Hgen.
  apply Forall_app in Hhist as [Hrest Hg].
  apply Forall_singleton in Hg as [Hgr Hgb].
  unfold invariant, well_shaped.
  cbn [grid height width history generation set_generation set_grid set_history].
  split; [done|]. split; [done|]. split; [done|]. split; lia.
Qed.

Lemma exec_invariant (o : op) (self : GameOfLife) :
  invariant self -> invariant (exec o self).
Proof.
  intros Hinv. destruct o as [|i j| |draw|]; cbn [exec].
  - by destruct (update_invariant self Hinv) as (g & _ & Hg).
  - destruct (decide (0 <= i < Z.of_nat (height self)
                      ∧ 0 <= j < Z.of_nat (width self))) as [[Hi Hj]|Hout].
    + destruct Hinv as (Hshape & Hbin & Hhist & Hlen & Hgen).
      rewrite toggle_cell_inside by done.
      unfold invariant, well_shaped.
      cbn [snd grid height width history generation set_grid].
      split; [by apply upd_rect|]. split; [|done].
      apply upd_binary; [done|]. destruct (_ =? 0); [by right|by left].
    + by rewrite toggle_cell_outside by done.
  - destruct Hinv as (Hshape & Hbin & Hhist & Hlen & Hgen).
    unfold invariant, well_shaped.
    cbn [clear snd set_grid grid height width history generation].
    split; [by apply fill_rect|]. split; [|done].
    apply all_dead_binary, fill_zero_dead.
  - destruct Hinv as (Hshape & Hbin & Hhist & Hlen & Hgen).
    destruct (randomize_grid draw self) as [Hr Hb].
    unfold invariant, well_shaped. split; [exact Hr|]. split; [exact Hb|]. done.
  - by apply undo_invariant.
Qed.

Lemma reachable_invariant (self : GameOfLife) : reachable self -> invariant self.
Proof.
  induction 1 as [w h|o self _ IH]; [apply init_invariant|by apply exec_invariant].
Qed.

Lemma reachable_run (os : list op) (self : GameOfLife) :
  reachable self -> reachable (run os self).
Proof.
  revert self. induction os as [|o os IH]; intros self Hr; [done|].
  cbn. apply IH. by constructor.
Qed.

(** ** Undo after steps *)

Lemma undo_snoc (self : GameOfLife) (rest : list ndarray) (g : ndarray) :
  history self = rest ++ [g] ->
  undo self
  = (Return true,
     mkGameOfLife (width self) (height self) g (generation self - 1) rest
       (boundary_type self)).
Proof. intros Hh. unfold undo. by rewrite Hh, pop_snoc. Qed.

Lemma undo_empty (self : GameOfLife) :
  history self = [] -> undo self = (Return false, self).
Proof. intros Hh. unfold undo. by rewrite Hh. Qed.

Lemma undo_true (self self' : GameOfLife) :
  undo self = (Return true, self') ->
  ∃ rest, history self = rest ++ [grid self']
          ∧ history self' = rest
          ∧ generation self' = generation self - 1.
Proof.
  unfold undo. destruct (pop (history self)) as [[rest g]|] eqn:Hpop; [|done].
  intros [= <-]. exists rest. by apply pop_Some in Hpop.
Qed.

Lemma steps_invariant (n : nat) (self : GameOfLife) :
  invariant self ->
  invariant (steps n self)
  ∧ length (history (steps n self)) = Nat.min 50 (length (history self) + n).
Proof.
  intros Hinv. induction n as [|n [IHinv IHlen]].
  - split; [done|]. destruct Hinv as (_ & _ & _ & Hlen & _).
    change (steps 0 self) with self. lia.
  - change (steps (S n) self) with (snd (update (steps n self))).
    destruct (update_invariant _ IHinv) as (g & Hrun & Hinv').
    split; [done|]. rewrite Hrun. cbn [snd history].
    destruct IHinv as (_ & _ & _ & Hlen & _).
    rewrite pushed_length by done. lia.
Qed.

Lemma undos_snoc (k : nat) (self : GameOfLife) :
  undos (S k) self
  = (fst (undos k self) ++ [fst (undo (snd (undos k self)))],
     snd (undo (snd (undos k self)))).
Proof.
  revert self. induction k as [|k IH]; intros self.
  - cbn. by destruct (undo self).
  - change (undos (S (S k)) self)
      with (let '(r, self') := undo self in
            let '(rs, self'') := undos (S k) self' in (r :: rs, self'')).
    destruct (undo self) as [r self'] eqn:Hu.
    rewrite IH. cbn [undos]. rewrite Hu.
    by destruct (undos k self').
Qed.

Lemma undos_true (k : nat) (self : GameOfLife) :
  (k <= length (history self))%nat ->
  fst (undos k self) = replicate k (Return true)
  ∧ length (history (snd (undos k self))) = (length (history self) - k)%nat.
Proof.
  induction k as [|k IH]; intros Hk.
  - cbn. split; [done|lia].
  - destruct (IH ltac:(lia)) as [Hrs Hlen].
    rewrite undos_snoc. cbn [fst snd].
    set (s := snd (undos k self)) in *.
    destruct (decide (history s = [])) as [Hnil|Hne].
    { rewrite Hnil in Hlen. cbn in Hlen. lia. }
    destruct (exists_last Hne) as (rest & g & Hh).
    rewrite (undo_snoc s rest g Hh). cbn [fst snd history].
    rewrite Hrs. split.
    + rewrite (replicate_S_end k). done.
    + rewrite Hh, length_app in Hlen. cbn [length] in Hlen. lia.
Qed.

(** ** C2 *)

(** C2.  On every engine whose grid has the recorded extent, [update]
    returns, and [undo] called right after it returns [True], restores the
    grid exactly as it was before the step and lowers the generation counter
    by exactly one, back to its value before the step.  On every engine with
    an empty history, a freshly constructed one in particular, [undo]
    returns [False] and leaves the whole engine, grid and generation counter
    included, as it is; the counter of a fresh engine is 0. *)
Theorem C2_undo_after_step (self other : GameOfLife) (w h : nat) :
  well_shaped self -> history other = [] ->
  (∃ self1 self2,
     update self = (Return (), self1)
     ∧ undo self1 = (Return true, self2)
     ∧ grid self2 = grid self
     ∧ generation self2 = generation self1 - 1
     ∧ generation self2 = generation self)
  ∧ undo other = (Return false, other)
  ∧ undo (init w h) = (Return false, init w h)
  ∧ generation (init w h) = 0.
Proof.
  intros Hshape Hempty. split; [|split; [by apply undo_empty|done]].
  destruct (update_spec self Hshape) as (g & Hrun & _).
  destruct (pushed_snoc (history self) (grid self)) as (hs' & Hh & _).
  eexists. eexists. split; [exact Hrun|].
  split; [by apply (undo_snoc _ hs' (grid self))|].
  cbn [grid generation]. repeat split; lia.
Qed.

Lemma C2_undo_after_step_witness :
  let self := snd (MainWindow.place MainWindow.glider 1 1 (init 6 6)) in
  well_shaped self ∧ history (init 3 3) = []
  ∧ grid (snd (undo (snd (update self)))) = grid self
  ∧ generation (snd (undo (snd (update self)))) = 0.
Proof.
  intros self.
  assert (well_shaped self) as H1 by (unfold well_shaped, rect; by_eval).
  assert (history (init 3 3) = []) as H2 by reflexivity.
  split; [exact H1|]. split; [exact H2|].
  destruct (C2_undo_after_step self (init 3 3) 3 3 H1 H2)
    as [(self1 & self2 & -> & Hundo & Hgrid & _ & Hgen) _].
  cbn [snd]. rewrite Hundo. cbn [snd]. split; [exact Hgrid|exact Hgen].
Defined.

(** ** C3 *)

(** C3.  In every engine reached from a constructed one by any sequence of
    requests the history holds at most 50 snapshots.  [update] on a history
    of 50 drops the oldest snapshot and appends the current grid; on a
    shorter history it only appends.  [undo] on a non-empty history returns
    [True], installs the snapshot appended last and removes it from the
    history.  After 51 or more calls of [update] in a row, 50 calls of
    [undo] in a row each return [True] and leave the history empty, and the
    51st returns [False]. *)
Theorem C3_history_bound (self : GameOfLife) (n : nat) :
  reachable self -> (51 <= n)%nat ->
  (length (history self) <= 50)%nat
  ∧ (∀ os, (length (history (run os self)) <= 50)%nat)
  ∧ (length (history self) = 50%nat ->
       history (snd (update self)) = tail (history self) ++ [grid self])
  ∧ ((length (history self) < 50)%nat ->
       history (snd (update self)) = history self ++ [grid self])
  ∧ (∀ rest g, history self = rest ++ [g] ->
       ∃ self', undo self = (Return true, self')
                ∧ grid self' = g ∧ history self' = rest)
  ∧ fst (undos 51 (steps n self)) = replicate 50 (Return true) ++ [Return false]
  ∧ history (snd (undos 50 (steps n self))) = [].
Proof.
  intros Hreach Hn.
  pose proof (reachable_invariant self Hreach) as Hinv.
  assert (∀ s, invariant s -> (length (history s) <= 50)%nat) as Hbound.
  { by intros s (_ & _ & _ & Hlen & _). }
  split; [by apply Hbound|].
  split; [intros os; by apply Hbound, reachable_invariant, reachable_run|].
  destruct (update_invariant self Hinv) as (g & Hrun & _).
  split; [|split].
  - intros Hfull. rewrite Hrun. cbn [snd history].
    destruct (pushed_snoc (history self) (grid self))
      as (hs' & -> & [[Hlt ->]|[Hge ->]]); [lia|done].
  - intros Hroom. rewrite Hrun. cbn [snd history].
    destruct (pushed_snoc (history self) (grid self))
      as (hs' & -> & [[Hlt ->]|[Hge ->]]); [done|lia].
  - split.
    { intros rest g' Hh. eexists. split; [by apply (undo_snoc self rest g')|done]. }
    destruct (steps_invariant n self Hinv) as [_ Hlen].
    assert (length (history (steps n self)) = 50%nat) as Hfifty.
    { specialize (Hbound self Hinv). lia. }
    destruct (undos_true 50 (steps n self) ltac:(lia)) as [Hrs Hleft].
    assert (history (snd (undos 50 (steps n self))) = []) as Hnil.
    { apply length_zero_iff_nil. lia. }
    split; [|done].
    rewrite undos_snoc. cbn [fst]. rewrite Hrs.
    by rewrite (undo_empty _ Hnil).
Qed.

Lemma C3_history_bound_witness :
  let self := run [Update; ToggleCell 0 1; Update; Undo] (init 3 2) in
  reachable self ∧ (51 <= 60)%nat
  ∧ fst (undos 51 (steps 60 self)) = replicate 50 (Return true) ++ [Return false].
Proof.
  intros self.
  assert (reachable self) as H1 by apply reachable_run, reachable_init.
  assert (51 <= 60)%nat as H2 by lia.
  split; [exact H1|]. split; [exact H2|].
  exact (proj1 (proj2 (proj2 (proj2 (proj2 (proj2
           (C3_history_bound self 60 H1 H2))))))).
Defined.

(** ** C9 *)

(** C9.  The generation counter starts at 0.  In every engine reached from
    a constructed one by calls of [update], [toggle_cell], [clear],
    [randomize] and [undo] it is at least the length of the history, hence
    never negative, and it stays so whatever requests follow; [update]
    returns and raises it by exactly one; an [undo] that returns [True]
    lowers it by exactly one and leaves it non-negative. *)
Theorem C9_generation_nonneg (self : GameOfLife) (os : list op) (w h : nat) :
  reachable self ->
  generation (init w h) = 0
  ∧ 0 <= generation self
  ∧ Z.of_nat (length (history self)) <= generation self
  ∧ 0 <= generation (run os self)
  ∧ (∃ self', update self = (Return (), self')
              ∧ generation self' = generation self + 1)
  ∧ (∀ self', undo self = (Return true, self') ->
       generation self' = generation self - 1 ∧ 0 <= generation self').
Proof.
  intros Hreach.
  pose proof (reachable_invariant self Hreach) as Hinv.
  assert (∀ s, invariant s -> 0 <= generation s) as Hpos.
  { intros s (_ & _ & _ & _ & Hgen). lia. }
  split; [done|]. split; [by apply Hpos|].
  split; [by destruct Hinv as (_ & _ & _ & _ & Hgen)|].
  split; [by apply Hpos, reachable_invariant, reachable_run|].
  split.
  - destruct (update_invariant self Hinv) as (g & Hrun & _).
    eexists. split; [exact Hrun|done].
  - intros self' Hundo.
    destruct (undo_true self self' Hundo) as (rest & Hh & _ & Hgen).
    split; [done|].
    destruct Hinv as (_ & _ & _ & _ & Hle).
    rewrite Hh, length_app in Hle. cbn [length] in Hle. lia.
Qed.

Lemma C9_generation_nonneg_witness :
  let self := run [Update; Undo; Undo; Clear; Update] (init 4 3) in
  reachable self
  ∧ generation self = 1
  ∧ 0 <= generation (run [Undo; Undo; Undo] self).
Proof.
  intros self.
  assert (reachable self) as H1 by apply reachable_run, reachable_init.
  split; [exact H1|]. split; [reflexivity|].
  exact (proj1 (proj2 (proj2 (proj2
           (C9_generation_nonneg self [Undo; Undo; Undo] 4 3 H1))))).
Defined.

(** ** C10 *)

(** C10.  The grid of a constructed engine is all zero, and in every engine
    reached from it by calls of [update], [toggle_cell], [clear],
    [randomize] and [undo] every cell of the grid, and of every snapshot
    kept in the history, is 0 or 1; each of these requests leaves it so. *)
Theorem C10_cells_binary (self : GameOfLife) (os : list op) (w h : nat) :
  reachable self ->
  all_dead (grid (init w h))
  ∧ binary (grid self)
  ∧ Forall binary (history self)
  ∧ (∀ o, binary (grid (exec o self)))
  ∧ binary (grid (run os self)).
Proof.
  intros Hreach.
  assert (∀ s, reachable s -> binary (grid s)) as Hbin.
  { intros s Hs. by destruct (reachable_invariant s Hs) as (_ & Hb & _). }
  split; [apply zeros_dead|]. split; [by apply Hbin|].
  split; [|split].
  - destruct (reachable_invariant self Hreach) as (_ & _ & Hhist & _).
    eapply Forall_impl; [exact Hhist|]. by intros g [_ Hg].
  - intros o. by apply Hbin, reachable_exec.
  - by apply Hbin, reachable_run.
Qed.

Lemma C10_cells_binary_witness :
  let self :=
    run [Randomize (fun i j => Nat.even (i + j)); Update; ToggleCell 1 1; Undo]
      (init 3 3) in
  reachable self ∧ binary (grid (run [Update; ToggleCell 0 0] self)).
Proof.
  intros self.
  assert (reachable self) as H1 by apply reachable_run, reachable_init.
  split; [exact H1|].
  exact (proj2 (proj2 (proj2 (proj2
           (C10_cells_binary self [Update; ToggleCell 0 0] 3 3 H1))))).
Defined.

(** ** C4 *)

Lemma set_grid_same (self : GameOfLife) : set_grid self (grid self) = self.
Proof. by destruct self. Qed.

Lemma toggle_twice (h w : nat) (a : ndarray) (i j : nat) :
  rect h w a -> (i < h)%nat -> (j < w)%nat ->
  cell a i j = 0 ∨ cell a i j = 1 ->
  let once := upd a i j (if cell a i j =? 0 then 1 else 0) in
  upd once i j (if cell once i j =? 0 then 1 else 0) = a.
Proof.
  intros Ha Hi Hj Hc once.
  assert (rect h w once) as Honce by by apply upd_rect.
  apply (rect_ext h w); [by apply upd_rect|done|].
  intros x y Hx Hy.
  destruct (decide ((x, y) = (i, j))) as [[= -> ->]|Hne].
  - rewrite (cell_upd_eq h w) by done.
    unfold once. rewrite (cell_upd_eq h w) by done.
    destruct Hc as [-> | ->]; done.
  - rewrite cell_upd_ne by done. unfold once. by rewrite cell_upd_ne.
Qed.

(** C4, as the code has it.  [toggle_cell] guards the write with a bounds
    test: with indices outside the grid it returns normally, raises nothing
    and leaves the whole engine unchanged.  With indices inside the grid of
    a well-shaped engine it returns, the addressed cell becomes 1 if it was 0
    and 0 otherwise, every other cell, the history and the generation counter
    are unchanged, and when the cell was 0 or 1 a second call with the same
    indices gives back the engine as it was. *)
Theorem C4_toggle_cell (self other : GameOfLife) (i j i' j' : Z) :
  well_shaped self ->
  0 <= i < Z.of_nat (height self) -> 0 <= j < Z.of_nat (width self) ->
  ¬ (0 <= i' < Z.of_nat (height other) ∧ 0 <= j' < Z.of_nat (width other)) ->
  toggle_cell i' j' other = (Return (), other)
  ∧ ∃ self',
      toggle_cell i j self = (Return (), self')
      ∧ cell (grid self') (Z.to_nat i) (Z.to_nat j)
        = (if cell (grid self) (Z.to_nat i) (Z.to_nat j) =? 0 then 1 else 0)
      ∧ (∀ x y, (x, y) ≠ (Z.to_nat i, Z.to_nat j) ->
           cell (grid self') x y = cell (grid self) x y)
      ∧ history self' = history self
      ∧ generation self' = generation self
      ∧ (cell (grid self) (Z.to_nat i) (Z.to_nat j) = 0
         ∨ cell (grid self) (Z.to_nat i) (Z.to_nat j) = 1 ->
         toggle_cell i j self' = (Return (), self)).
Proof.
  intros Hshape Hi Hj Hout. split; [by apply toggle_cell_outside|].
  eexists. split; [by apply toggle_cell_inside|].
  cbn [grid set_grid history generation].
  split; [apply (cell_upd_eq (height self) (width self)); [done|lia|lia]|].
  split; [intros x y Hne; by apply cell_upd_ne|].
  split; [done|]. split; [done|].
  intros Hc. rewrite toggle_cell_inside; [|by apply upd_rect|done|done].
  cbn [grid set_grid]. f_equal.
  rewrite (toggle_twice (height self) (width self)); [|done|lia|lia|done].
  by destruct self.
Qed.

Lemma C4_toggle_cell_witness :
  let self := snd (MainWindow.place MainWindow.block 0 0 (init 3 3)) in
  (well_shaped self ∧ 0 <= 1 < 3 ∧ 0 <= 2 < 3 ∧ ¬ (0 <= 3 < 3 ∧ 0 <= 0 < 3))
  ∧ toggle_cell 3 0 self = (Return (), self)
  ∧ ∃ self', toggle_cell 1 2 self = (Return (), self')
             ∧ cell (grid self') 1 2 = 1.
Proof.
  intros self.
  assert (well_shaped self) as H1 by (unfold well_shaped, rect; by_eval).
  assert (0 <= 1 < Z.of_nat (height self)) as H2
    by (change (height self) with 3%nat; lia).
  assert (0 <= 2 < Z.of_nat (width self)) as H3
    by (change (width self) with 3%nat; lia).
  assert (¬ (0 <= 3 < Z.of_nat (height self) ∧ 0 <= 0 < Z.of_nat (width self)))
    as H4 by (change (height self) with 3%nat; lia).
  split; [split; [exact H1|lia]|].
  destruct (C4_toggle_cell self self 1 2 3 0 H1 H2 H3 H4)
    as [Hout (self' & Hin & Hcell & _)].
  split; [exact Hout|]. exists self'. split; [exact Hin|exact Hcell].
Defined.

(** C4 as stated fails: with an index outside the grid (a negative row, or a
    column equal to the width) [toggle_cell] returns normally; nothing is
    signalled to the caller. *)
Lemma C4_counterexample :
  ¬ (0 <= -1 < 2) ∧ ¬ (0 <= 2 < 2)
  ∧ toggle_cell (-1) 0 (init 2 2) = (Return (), init 2 2)
  ∧ toggle_cell 0 2 (init 2 2) = (Return (), init 2 2).
Proof. repeat split; try lia; reflexivity. Qed.

(** ** Drawing the view at the end of a method *)

Lemma bind_Raise {A B : Type} (e : exn) (k : A -> outcome B) :
  (Raise e ≫= k) = Raise e.
Proof. reflexivity. Qed.

Lemma for_in_seq_raise {S : Type} (P : nat -> S -> Prop)
    (body : nat -> S -> outcome S) (k0 : nat) (e : exn) :
  (∀ k t, (k < k0)%nat -> P k t -> ∃ t', body k t = Return t' ∧ P (Datatypes.S k) t') ->
  (∀ t, P k0 t -> body k0 t = Raise e) ->
  ∀ len a s, (a <= k0 < a + len)%nat -> P a s ->
  for_in (seq a len) body s = Raise e.
Proof.
  intros Hbefore Hat. induction len as [|len IH]; intros a s Ha Hs; [lia|].
  cbn [seq for_in].
  destruct (decide (a = k0)) as [->|Hne].
  - by rewrite (Hat s Hs).
  - destruct (Hbefore a s ltac:(lia) Hs) as (s' & -> & Hs').
    rewrite bind_Return. apply IH; [lia|done].
Qed.

Lemma py_index_raise (n : nat) (k : Z) :
  ¬ (- Z.of_nat n <= k < Z.of_nat n) -> py_index n k = Raise IndexError.
Proof.
  intros Hout. unfold py_index.
  rewrite decide_False by lia. by rewrite decide_False by lia.
Qed.

Lemma getitem_raise (h w : nat) (a : ndarray) (x y : Z) :
  rect h w a ->
  ¬ (- Z.of_nat h <= x < Z.of_nat h ∧ - Z.of_nat w <= y < Z.of_nat w) ->
  getitem a x y = Raise IndexError.
Proof.
  intros Ha Hout. unfold getitem. pose proof Ha as [Hl Hrows]. rewrite Hl.
  destruct (decide (- Z.of_nat h <= x < Z.of_nat h)) as [Hx|Hx].
  - rewrite py_index_wrap, bind_Return by done.
    assert (0 <= x `mod` Z.of_nat h < Z.of_nat h) as Hxm
      by (apply Z.mod_pos_bound; lia).
    destruct (rect_lookup h w a (Z.to_nat (x `mod` Z.of_nat h)) Ha ltac:(lia))
      as (row & Hrow & Hlen).
    rewrite Hrow, Hlen. by rewrite py_index_raise by lia.
  - by rewrite py_index_raise by done.
Qed.

Lemma for_in_range_returns {S : Type} (body : nat -> S -> outcome S) (n : nat) (s : S) :
  (∀ k t, (k < n)%nat -> ∃ t', body k t = Return t') ->
  ∃ t, for_in (range n) body s = Return t.
Proof.
  intros Hbody.
  destruct (for_in_range_inv (fun _ _ => True) body n s) as (t & Ht & _); [done| |by exists t].
  intros k t Hk _. destruct (Hbody k t Hk) as (t' & Ht'). by exists t'.
Qed.

Lemma for_in_range_raises {S : Type} (body : nat -> S -> outcome S)
    (n k0 : nat) (e : exn) (s : S) :
  (∀ k t, (k < k0)%nat -> ∃ t', body k t = Return t') ->
  (∀ t, body k0 t = Raise e) ->
  (k0 < n)%nat ->
  for_in (range n) body s = Raise e.
Proof.
  intros Hbefore Hat Hk0.
  apply (for_in_seq_raise (fun _ _ => True) body k0 e); [|by intros|lia|done].
  intros k t Hk _. destruct (Hbefore k t Hk) as (t' & Ht'). by exists t'.
Qed.

(** Loops over the same items whose bodies end alike end alike. *)
Lemma for_in_same_end {A S T : Type} (xs : list A)
    (f : A -> S -> outcome S) (g : A -> T -> outcome T) :
  (∀ x s t, same_end (f x s) (g x t)) ->
  ∀ s t, same_end (for_in xs f s) (for_in xs g t).
Proof.
  intros Hbody. induction xs as [|x xs IH]; intros s t; [done|].
  cbn [for_in]. specialize (Hbody x s t).
  destruct (f x s) as [s'|e], (g x t) as [t'|e']; try done.
  rewrite !bind_Return. apply IH.
Qed.

Lemma draw_cells_same_end (cs cs' : Z) (game : GameOfLife)
    (sc sc' : list GameView.item) :
  same_end (GameView.draw_cells cs game sc) (GameView.draw_cells cs' game sc').
Proof.
  unfold GameView.draw_cells. revert sc sc'.
  apply for_in_same_end. intros i. apply for_in_same_end. intros j s t.
  destruct (getitem (grid game) (Z.of_nat i) (Z.of_nat j)) as [c|e]; [|done].
  rewrite !bind_Return. by destruct (negb _).
Qed.

(** How [draw_grid] ends depends on the game alone: not on the size of the
    cells, nor on [show_grid]. *)
Lemma redraw_any_view (cs : Z) (show_grid : bool) (game : GameOfLife) :
  (_ ← GameView.draw_grid cs show_grid game; Return ()) = MainWindow.redraw game.
Proof.
  unfold MainWindow.redraw, GameView.draw_grid.
  pose proof (draw_cells_same_end cs GameView.initial_cell_size game [] []) as Hsame.
  destruct (GameView.draw_cells cs game []) as [sc|e],
           (GameView.draw_cells GameView.initial_cell_size game []) as [sc'|e'];
    cbn in Hsame |- *; by subst.
Qed.

Section Redraw.

Context (game : GameOfLife) (h' w' : nat).
Context (Hgrid : rect h' w' (grid game)).

(** The view reads the cells of the recorded extent; it returns when the
    grid has them all. *)
Lemma draw_cells_returns (cs : Z) (sc : list GameView.item) :
  (height game <= h')%nat -> (width game <= w')%nat ->
  ∃ sc', GameView.draw_cells cs game sc = Return sc'.
Proof.
  intros Hh Hw. unfold GameView.draw_cells.
  apply for_in_range_returns. intros i t Hi.
  apply for_in_range_returns. intros j u Hj.
  rewrite (getitem_in h' w'), bind_Return by (done || lia).
  destruct (negb _); by eexists.
Qed.

(** With a grid that has fewer rows or columns than recorded, the first
    read outside the grid raises. *)
Lemma draw_cells_raises (cs : Z) (sc : list GameView.item) :
  (1 <= height game)%nat -> (1 <= width game)%nat ->
  (h' < height game ∨ w' < width game)%nat ->
  GameView.draw_cells cs game sc = Raise IndexError.
Proof.
  intros Hh Hw Hsmall. unfold GameView.draw_cells.
  destruct (decide (width game <= w')%nat) as [Hwide|Hnarrow].
  - apply (for_in_range_raises _ _ h'); [| |lia].
    + intros i t Hi. apply for_in_range_returns. intros j u Hj.
      rewrite (getitem_in h' w'), bind_Return by (done || lia).
      destruct (negb _); by eexists.
    + intros t. apply (for_in_range_raises _ _ 0%nat); [intros; lia| |lia].
      intros u. by rewrite (getitem_raise h' w') by (done || lia).
  - apply (for_in_range_raises _ _ 0%nat); [intros; lia| |lia].
    intros t. destruct (decide (0 < h')%nat) as [Hrow|Hnone].
    + apply (for_in_range_raises _ _ w'); [| |lia].
      * intros j u Hj.
        rewrite (getitem_in h' w' _ 0%nat), bind_Return by (done || lia).
        destruct (negb _); by eexists.
      * intros u. by rewrite (getitem_raise h' w') by (done || lia).
    + apply (for_in_range_raises _ _ 0%nat); [intros; lia| |lia].
      intros u. by rewrite (getitem_raise h' w') by (done || lia).
Qed.

Lemma redraw_returns :
  (height game <= h')%nat -> (width game <= w')%nat ->
  MainWindow.redraw game = Return ().
Proof.
  intros Hh Hw. unfold MainWindow.redraw, GameView.draw_grid.
  destruct (draw_cells_returns GameView.initial_cell_size [] Hh Hw) as (sc & ->).
  done.
Qed.

Lemma redraw_raises :
  (1 <= height game)%nat -> (1 <= width game)%nat ->
  (h' < height game ∨ w' < width game)%nat ->
  MainWindow.redraw game = Raise IndexError.
Proof.
  intros Hh Hw Hsmall. unfold MainWindow.redraw, GameView.draw_grid.
  by rewrite draw_cells_raises.
Qed.

End Redraw.

Lemma redraw_well_shaped (game : GameOfLife) :
  well_shaped game -> MainWindow.redraw game = Return ().
Proof. intros Hshape. by apply (redraw_returns game _ _ Hshape). Qed.

Lemma draw_and_return_well_shaped (game : GameOfLife) :
  well_shaped game -> MainWindow.draw_and_return game = (Return (), game).
Proof.
  intros Hshape. unfold MainWindow.draw_and_return.
  by rewrite redraw_well_shaped.
Qed.

(** ** C7 and C8 *)

(** C7, as the code has it.  When [np.load] returns an array, [load_state]
    installs it as the grid of the engine and changes nothing else: the
    generation counter, the history and the recorded extent stay as they
    were; nothing is reset.  The view is then drawn from the new grid, and
    the call returns normally when the array has at least as many rows and
    columns as the engine records. *)
Theorem C7_load_replaces_grid (game : GameOfLife) (a : ndarray) :
  ∃ out game',
    MainWindow.load_state (MainWindow.File (Return a)) game = (out, game')
    ∧ grid game' = a
    ∧ generation game' = generation game
    ∧ history game' = history game
    ∧ width game' = width game
    ∧ height game' = height game
    ∧ (∀ h' w', rect h' w' a ->
         (height game <= h')%nat -> (width game <= w')%nat -> out = Return ()).
Proof.
  exists (MainWindow.redraw (set_grid game a)), (set_grid game a).
  do 6 (split; [done|]).
  intros h' w' Ha Hh Hw. by apply (redraw_returns (set_grid game a) h' w').
Qed.

Lemma C7_load_replaces_grid_witness :
  let game := snd (update (init 2 2)) in
  ∃ game',
    MainWindow.load_state (MainWindow.File (Return (zeros 3 2))) game
    = (Return (), game')
    ∧ grid game' = zeros 3 2 ∧ generation game' = 1 ∧ history game' = [zeros 2 2].
Proof.
  intros game.
  destruct (C7_load_replaces_grid game (zeros 3 2))
    as (out & game' & Hrun & Hgrid & Hgen & Hhist & _ & _ & Hout).
  assert (rect 3 2 (zeros 3 2)) as Hrect by (unfold rect; by_eval).
  assert (out = Return ()) as Hret.
  { apply (Hout 3%nat 2%nat Hrect).
    - change (height game) with 2%nat. lia.
    - change (width game) with 2%nat. lia. }
  exists game'. rewrite Hrun, Hret.
  split; [reflexivity|]. split; [exact Hgrid|].
  split; [rewrite Hgen; reflexivity|rewrite Hhist; reflexivity].
Defined.

(** C7 as stated fails: after one generation, loading a grid leaves the
    counter at 1 and the snapshot in the history. *)
Lemma C7_counterexample :
  let game := snd (update (init 2 2)) in
  let game' := snd (MainWindow.load_state (MainWindow.File (Return (zeros 2 2))) game) in
  generation game' = 1 ∧ history game' = [zeros 2 2].
Proof. split; reflexivity. Qed.

(** C8, as the code has it.  [load_state] does not inspect what [np.load]
    returns: every array is installed as the grid, binary or not, of the
    recorded extent or not.  The view is then drawn from it.  With an array
    that has at least the recorded rows and columns the call returns
    normally.  With an array that has fewer rows or fewer columns the
    drawing raises [IndexError] and the loaded array stays installed: the
    call is not all or nothing.  When [np.load] itself raises, the exception
    reaches the caller and the engine is unchanged.  Without a file name
    nothing happens. *)
Theorem C8_load_failure (game : GameOfLife) (a : ndarray) (h' w' : nat) :
  rect h' w' a ->
  snd (MainWindow.load_state (MainWindow.File (Return a)) game) = set_grid game a
  ∧ ((height game <= h')%nat ∧ (width game <= w')%nat ->
     MainWindow.load_state (MainWindow.File (Return a)) game
     = (Return (), set_grid game a))
  ∧ ((1 <= height game)%nat ∧ (1 <= width game)%nat
     ∧ (h' < height game ∨ w' < width game)%nat ->
     MainWindow.load_state (MainWindow.File (Return a)) game
     = (Raise IndexError, set_grid game a))
  ∧ (∀ e, MainWindow.load_state (MainWindow.File (Raise e)) game = (Raise e, game))
  ∧ MainWindow.load_state MainWindow.NoFile game = (Return (), game).
Proof.
  intros Ha. split; [done|]. split; [|split; [|done]].
  - intros [Hh Hw]. cbn [MainWindow.load_state]. unfold MainWindow.draw_and_return.
    by rewrite (redraw_returns (set_grid game a) h' w').
  - intros (Hh & Hw & Hsmall).
    cbn [MainWindow.load_state]. unfold MainWindow.draw_and_return.
    by rewrite (redraw_raises (set_grid game a) h' w').
Qed.

Lemma C8_load_failure_witness :
  rect 1 3 [[2; 5; 0]]
  ∧ MainWindow.load_state (MainWindow.File (Return [[2; 5; 0]])) (init 2 2)
    = (Raise IndexError, set_grid (init 2 2) [[2; 5; 0]]).
Proof.
  assert (rect 1 3 [[2; 5; 0]]) as Hrect by (unfold rect; by_eval).
  split; [exact Hrect|].
  apply (proj1 (proj2 (proj2 (C8_load_failure (init 2 2) [[2; 5; 0]] 1 3 Hrect)))).
  change (height (init 2 2)) with 2%nat. change (width (init 2 2)) with 2%nat. lia.
Defined.

(** C8 as stated fails.  An array that is not binary is accepted without
    any signal and becomes the grid.  An array smaller than the engine makes
    the call fail, with [IndexError] from the drawing, but the grid has been
    replaced by then. *)
Lemma C8_counterexample :
  (¬ binary [[2; 5]; [0; 1]]
   ∧ MainWindow.load_state (MainWindow.File (Return [[2; 5]; [0; 1]])) (init 2 2)
     = (Return (), set_grid (init 2 2) [[2; 5]; [0; 1]]))
  ∧ (¬ rect 2 2 [[2; 5; 0]]
     ∧ MainWindow.load_state (MainWindow.File (Return [[2; 5; 0]])) (init 2 2)
       = (Raise IndexError, set_grid (init 2 2) [[2; 5; 0]])
     ∧ grid (set_grid (init 2 2) [[2; 5; 0]]) ≠ grid (init 2 2)).
Proof.
  split; [split; [|reflexivity]|split; [|split; [reflexivity|done]]].
  - intros Hb. apply Forall_cons in Hb as [Hrow _].
    apply Forall_cons in Hrow as [[H|H] _]; lia.
  - intros [Hl _]. cbn in Hl. lia.
Qed.

(** ** C5 *)

(** A position that is none of the listed ones. *)
Ltac not_among H :=
  repeat (apply elem_of_cons in H as [H|H];
          [let E1 := fresh in let E2 := fresh in
           injection H as E1 E2; try lia|]);
  try by apply elem_of_nil in H.

Lemma not_self_fixed (h w : nat) (i j : nat) :
  (Z.of_nat i, Z.of_nat j) ∉ moore_fixed h w (Z.of_nat i) (Z.of_nat j).
Proof.
  intros Hin. unfold moore_fixed in Hin.
  apply list_elem_of_filter in Hin as [_ Hin].
  unfold offsets8 in Hin. cbn [fmap list_fmap fst snd] in Hin.
  not_among Hin.
Qed.

Lemma cellZ_upd_ne (a : ndarray) (i j : nat) (v : Z) (p : Z * Z) :
  0 <= p.1 -> 0 <= p.2 -> p ≠ (Z.of_nat i, Z.of_nat j) ->
  cellZ (upd a i j v) p = cellZ a p.
Proof.
  intros H1 H2 Hne. unfold cellZ. apply cell_upd_ne.
  intros [= Hx Hy]. apply Hne. destruct p as [x y]. cbn [fst snd] in *.
  f_equal; lia.
Qed.

Lemma cell_fixed_upd_ne (h w : nat) (a : ndarray) (i j : nat) (v : Z) (p : Z * Z) :
  p ≠ (Z.of_nat i, Z.of_nat j) ->
  cell_fixed h w (upd a i j v) p = cell_fixed h w a p.
Proof.
  intros Hne. unfold cell_fixed, in_grid.
  destruct (bool_decide (0 <= p.1 < Z.of_nat h)) eqn:H1; [|done].
  destruct (bool_decide (0 <= p.2 < Z.of_nat w)) eqn:H2; [|done].
  apply bool_decide_eq_true in H1, H2. cbn [andb].
  apply cellZ_upd_ne; [lia|lia|done].
Qed.

(** The count of the engine does not depend on the cell itself. *)
Lemma count_neighbors_upd_self (self : GameOfLife) (i j : nat) (v : Z) :
  well_shaped self -> (i < height self)%nat -> (j < width self)%nat ->
  _count_neighbors (set_grid self (upd (grid self) i j v)) (Z.of_nat i) (Z.of_nat j)
  = _count_neighbors self (Z.of_nat i) (Z.of_nat j).
Proof.
  intros Hshape Hi Hj.
  rewrite (count_neighbors_sum self Hshape i j Hi Hj).
  rewrite (count_neighbors_sum (set_grid self (upd (grid self) i j v)));
    [|by apply upd_rect|done|done].
  cbn [set_grid grid height width]. f_equal.
  unfold around, offsets8. cbn [fmap list_fmap fst snd].
  rewrite !cell_fixed_upd_ne; [done|..]; intros [= ? ?]; lia.
Qed.

Lemma wrap_mod_ne (n : nat) (i d : Z) :
  (2 <= n)%nat -> 0 <= i < Z.of_nat n -> d = 1 ∨ d = -1 ->
  (i + d) `mod` Z.of_nat n ≠ i.
Proof.
  intros Hn Hi Hd Heq.
  pose proof (Z.div_mod (i + d) (Z.of_nat n) ltac:(lia)) as Hdm.
  rewrite Heq in Hdm.
  generalize dependent ((i + d) `div` Z.of_nat n). intros q Hq.
  assert (Z.of_nat n * q = d) as Hnq by lia.
  assert (q <= -1 ∨ q = 0 ∨ 1 <= q) as [Hneg|[Hzero|Hpos]] by lia;
    destruct Hd; nia.
Qed.

Lemma not_self_wrap (n m : nat) (i j : nat) :
  (2 <= n)%nat -> (2 <= m)%nat -> (i < n)%nat -> (j < m)%nat ->
  (Z.of_nat i, Z.of_nat j) ∉ moore_wrap n m (Z.of_nat i) (Z.of_nat j).
Proof.
  intros Hn Hm Hi Hj Hin. unfold moore_wrap, offsets8 in Hin.
  cbn [fmap list_fmap fst snd] in Hin.
  pose proof (wrap_mod_ne n (Z.of_nat i) 1 Hn ltac:(lia) ltac:(lia)).
  pose proof (wrap_mod_ne n (Z.of_nat i) (-1) Hn ltac:(lia) ltac:(lia)).
  pose proof (wrap_mod_ne m (Z.of_nat j) 1 Hm ltac:(lia) ltac:(lia)).
  pose proof (wrap_mod_ne m (Z.of_nat j) (-1) Hm ltac:(lia) ltac:(lia)).
  not_among Hin; congruence.
Qed.

(** On a torus with at least two rows and two columns the sum does not
    depend on the cell itself. *)
Lemma neighbors_upd_self (n m : nat) (a : ndarray) (i j : nat) (v : Z) :
  rect n m a -> (2 <= n)%nat -> (2 <= m)%nat -> (i < n)%nat -> (j < m)%nat ->
  Torus.neighbors n m (upd a i j v) (Z.of_nat i) (Z.of_nat j)
  = Torus.neighbors n m a (Z.of_nat i) (Z.of_nat j).
Proof.
  intros Ha Hn Hm Hi Hj.
  rewrite (neighbors_sum n m a Ha i j Hi Hj).
  rewrite (neighbors_sum n m (upd a i j v)); [|by apply upd_rect|done|done].
  f_equal. apply (f_equal Zsum). apply list_fmap_ext.
  intros k p Hp. apply list_elem_of_lookup_2 in Hp.
  assert (p ≠ (Z.of_nat i, Z.of_nat j)) as Hne.
  { intros ->. by apply (not_self_wrap n m i j). }
  unfold moore_wrap in Hp. apply list_elem_of_fmap in Hp as (d & -> & _).
  apply cellZ_upd_ne; [..|done]; cbn [fst snd]; apply Z.mod_pos_bound; lia.
Qed.

(** C5, as the code has it.  Inside a binary grid the count is an integer
    from 0 to 8.  Under the fixed boundary ([_count_neighbors]) it is the
    number of alive cells among the Moore positions that lie inside the
    grid; the cell itself is not one of them and its value does not enter the
    count.  On the torus (the sum of [game_of_life]) it is the number of
    alive cells among the eight Moore positions taken modulo the extent; the
    cell itself is none of them, and its value does not enter the count,
    when the grid has at least two rows and two columns. *)
Theorem C5_neighbor_count (self : GameOfLife) (n m : nat) (a : ndarray)
    (i j i' j' : nat) :
  well_shaped self -> binary (grid self) ->
  (i < height self)%nat -> (j < width self)%nat ->
  rect n m a -> binary a -> (i' < n)%nat -> (j' < m)%nat ->
  (∃ nb,
     _count_neighbors self (Z.of_nat i) (Z.of_nat j) = Return nb
     ∧ 0 <= nb <= 8
     ∧ nb = count_alive (grid self)
              (moore_fixed (height self) (width self) (Z.of_nat i) (Z.of_nat j))
     ∧ ((Z.of_nat i, Z.of_nat j)
          ∉ moore_fixed (height self) (width self) (Z.of_nat i) (Z.of_nat j))
     ∧ ∀ v, _count_neighbors (set_grid self (upd (grid self) i j v))
              (Z.of_nat i) (Z.of_nat j) = Return nb)
  ∧ (∃ nb,
       Torus.neighbors n m a (Z.of_nat i') (Z.of_nat j') = Return nb
       ∧ 0 <= nb <= 8
       ∧ nb = count_alive a (moore_wrap n m (Z.of_nat i') (Z.of_nat j'))
       ∧ ((2 <= n)%nat -> (2 <= m)%nat ->
            ((Z.of_nat i', Z.of_nat j')
               ∉ moore_wrap n m (Z.of_nat i') (Z.of_nat j'))
            ∧ ∀ v, Torus.neighbors n m (upd a i' j' v) (Z.of_nat i') (Z.of_nat j')
                   = Return nb)).
Proof.
  intros Hshape Hbin Hi Hj Ha Hba Hi' Hj'. split.
  - exists (fixed_count (height self) (width self) (grid self) i j).
    split; [by apply count_neighbors_fixed|]. unfold fixed_count.
    split.
    { pose proof (count_alive_bounds (grid self)
        (moore_fixed (height self) (width self) (Z.of_nat i) (Z.of_nat j))) as Hb.
      pose proof (length_filter (fun p => in_grid (height self) (width self) p = true)
        (around (Z.of_nat i) (Z.of_nat j))) as Hf.
      assert (length (around (Z.of_nat i) (Z.of_nat j)) = 8%nat) as Hl
        by (unfold around; by rewrite length_fmap).
      unfold moore_fixed in *. lia. }
    split; [done|]. split; [apply not_self_fixed|].
    intros v. rewrite count_neighbors_upd_self by done.
    by apply count_neighbors_fixed.
  - exists (wrap_count n m a i' j').
    split; [by apply neighbors_wrap|]. unfold wrap_count.
    split.
    { pose proof (count_alive_bounds a
        (moore_wrap n m (Z.of_nat i') (Z.of_nat j'))) as Hb.
      assert (length (moore_wrap n m (Z.of_nat i') (Z.of_nat j')) = 8%nat) as Hl
        by (unfold moore_wrap; by rewrite length_fmap).
      lia. }
    split; [done|]. intros Hn Hm. split; [by apply not_self_wrap|].
    intros v. rewrite neighbors_upd_self by done.
    by apply neighbors_wrap.
Qed.

Lemma C5_neighbor_count_witness :
  let self := snd (MainWindow.place MainWindow.glider 0 0 (init 5 5)) in
  let a := MainWindow.glider in
  (well_shaped self ∧ binary (grid self) ∧ (1 < height self)%nat
   ∧ (1 < width self)%nat ∧ rect 3 3 a ∧ binary a ∧ (0 < 3)%nat ∧ (2 < 3)%nat)
  ∧ (∃ nb, _count_neighbors self 1 1 = Return nb ∧ 0 <= nb <= 8)
  ∧ (∃ nb, Torus.neighbors 3 3 a 0 2 = Return nb ∧ 0 <= nb <= 8).
Proof.
  intros self a.
  assert (well_shaped self) as H1 by (unfold well_shaped, rect; by_eval).
  assert (binary (grid self)) as H2 by (unfold binary; by_eval).
  assert (1 < height self)%nat as H3 by (change (height self) with 5%nat; lia).
  assert (1 < width self)%nat as H4 by (change (width self) with 5%nat; lia).
  assert (rect 3 3 a) as H5 by (unfold rect; by_eval).
  assert (binary a) as H6 by (unfold binary; by_eval).
  assert (0 < 3)%nat as H7 by lia.
  assert (2 < 3)%nat as H8 by lia.
  split; [by repeat (split; [assumption|])|].
  destruct (C5_neighbor_count self 3 3 a 1 1 0 2 H1 H2 H3 H4 H5 H6 H7 H8)
    as [(nb & Hnb & Hb & _) (nb' & Hnb' & Hb' & _)].
  split; [exists nb|exists nb']; split; assumption.
Defined.

(** C5 as stated fails on a torus with a single row: the only alive cell of
    the grid is the cell itself, and the count at that cell is 2; with the
    cell dead the count is 0.  The cell is among its own neighbour
    positions. *)
Lemma C5_counterexample :
  rect 1 3 [[0; 1; 0]] ∧ binary [[0; 1; 0]]
  ∧ Torus.neighbors 1 3 [[0; 1; 0]] 0 1 = Return 2
  ∧ Torus.neighbors 1 3 (upd [[0; 1; 0]] 0 1 0) 0 1 = Return 0
  ∧ (0, 1) ∈ moore_wrap 1 3 0 1.
Proof. unfold rect, binary. by_eval. Qed.

(** ** C6 *)

Section Splice.

Context {A : Type}.
Implicit Types (l mid : list A).

Lemma splice_length l mid (lo t : nat) :
  length mid = t -> (lo + t <= length l)%nat ->
  length (take lo l ++ mid ++ drop (lo + t) l) = length l.
Proof.
  intros Hm Hfit. rewrite !length_app, length_take, length_drop. lia.
Qed.

Lemma splice_lookup l mid (lo t x : nat) :
  length mid = t -> (lo + t <= length l)%nat ->
  (take lo l ++ mid ++ drop (lo + t) l) !! x
  = if decide (lo <= x < lo + t)%nat then mid !! (x - lo)%nat else l !! x.
Proof.
  intros Hm Hfit.
  destruct (decide (x < lo)%nat) as [Hlt|Hge].
  - rewrite decide_False by lia.
    rewrite lookup_app_l by (rewrite length_take; lia).
    by rewrite lookup_take_lt.
  - rewrite lookup_app_r by (rewrite length_take; lia).
    rewrite length_take. replace (lo `min` length l)%nat with lo by lia.
    destruct (decide (x < lo + t)%nat) as [Hin|Hout].
    + rewrite decide_True by lia. by rewrite lookup_app_l by lia.
    + rewrite decide_False by lia.
      rewrite lookup_app_r by lia. rewrite lookup_drop. f_equal. lia.
Qed.

Lemma slice_fits l (lo : Z) (t : nat) :
  0 <= lo -> lo + Z.of_nat t <= Z.of_nat (length l) ->
  Z.to_nat (slice_bound (length l) lo) = Z.to_nat lo
  ∧ length (py_slice l lo (lo + Z.of_nat t)) = t.
Proof.
  intros Hlo Hfit. unfold py_slice, slice_bound.
  rewrite !decide_False by lia. split; [lia|].
  rewrite length_take, length_drop. lia.
Qed.

End Splice.

Lemma tabulate_id (cast : Z -> Z) (prow : list Z) :
  (fun k : nat => cast (default 0 (prow !! k))) <$> range (length prow)
  = cast <$> prow.
Proof.
  apply list_eq. intros k. unfold range. rewrite !list_lookup_fmap.
  destruct (decide (k < length prow)%nat) as [Hk|Hk].
  - rewrite lookup_seq_lt by done. cbn.
    destruct (lookup_lt_is_Some_2 prow k Hk) as [v Hv]. by rewrite Hv.
  - rewrite lookup_seq_ge by lia. by rewrite lookup_ge_None_2 by lia.
Qed.

Lemma assign_row_fits (cast : Z -> Z) (row prow : list Z) (c : Z) :
  0 <= c -> c + Z.of_nat (length prow) <= Z.of_nat (length row) ->
  assign_row cast row c (c + Z.of_nat (length prow)) prow
  = take (Z.to_nat c) row ++ (cast <$> prow)
      ++ drop (Z.to_nat c + length prow) row.
Proof.
  intros Hc Hfit. unfold assign_row.
  destruct (slice_fits row c (length prow) Hc Hfit) as [-> ->].
  unfold bcast_index. rewrite bool_decide_eq_true_2 by done.
  by rewrite tabulate_id.
Qed.

(** The conversion to [np.int8] keeps the values from -128 to 127, 0 and 1
    among them. *)
Lemma int8_small (v : Z) : -128 <= v <= 127 -> int8 v = v.
Proof. intros Hv. unfold int8. rewrite Z.mod_small; lia. Qed.

(** The slice assignment of [apply_pattern] when the pattern fits at
    [(r, c)]: it succeeds, keeps the extent, writes the converted cells of
    the pattern over the addressed block and nothing else. *)
Lemma setslice2_fits (cast : Z -> Z) (H W ph pw : nat) (g pat : ndarray) (r c : Z) :
  rect H W g -> rect ph pw pat -> shape pat = (ph, pw) ->
  0 <= r -> r + Z.of_nat ph <= Z.of_nat H ->
  0 <= c -> c + Z.of_nat pw <= Z.of_nat W ->
  ∃ g',
    setslice2 cast W g r (r + Z.of_nat ph) c (c + Z.of_nat pw) pat = Return g'
    ∧ rect H W g'
    ∧ ∀ x y, (x < H)%nat -> (y < W)%nat ->
        cell g' x y
        = if decide (r <= Z.of_nat x < r + Z.of_nat ph
                     ∧ c <= Z.of_nat y < c + Z.of_nat pw)
          then cast (cell pat (Z.to_nat (Z.of_nat x - r))
                       (Z.to_nat (Z.of_nat y - c)))
          else cell g x y.
Proof.
  intros Hg Hpat Hshape Hr Hrfit Hc Hcfit.
  pose proof Hg as [Hl Hrows]. pose proof Hpat as [Hpl Hprows].
  destruct (slice_fits g r ph Hr ltac:(lia)) as [Hr' Hth].
  assert (length (py_slice (default (replicate W 0) (head g)) c (c + Z.of_nat pw))
          = pw) as Htw.
  { destruct g as [|row0 g0]; cbn [head default from_option id].
    - apply slice_fits; [lia|]. rewrite length_replicate. lia.
    - apply Forall_cons in Hrows as [Hrow0 _].
      apply slice_fits; lia. }
  set (r' := Z.to_nat r) in *. set (c' := Z.to_nat c).
  (* the rows written *)
  assert (∀ k, (k < ph)%nat ->
            ∃ row prow, g !! (r' + k)%nat = Some row ∧ length row = W
                        ∧ pat !! k = Some prow ∧ length prow = pw
                        ∧ assign_row cast (default [] (g !! (r' + k)%nat)) c
                            (c + Z.of_nat pw)
                            (default [] (pat !! bcast_index ph ph k))
                          = take c' row ++ (cast <$> prow) ++ drop (c' + pw) row)
    as Hmid.
  { intros k Hk.
    destruct (rect_lookup H W g (r' + k) Hg ltac:(lia)) as (row & Hrow & Hlen).
    destruct (rect_lookup ph pw pat k Hpat Hk) as (prow & Hprow & Hplen).
    exists row, prow. repeat (split; [done|]).
    unfold bcast_index. rewrite bool_decide_eq_true_2 by done.
    rewrite Hrow, Hprow. cbn [default from_option id]. rewrite <- Hplen.
    apply assign_row_fits; lia. }
  set (mid := (fun k : nat =>
                 assign_row cast (default [] (g !! (r' + k)%nat)) c
                   (c + Z.of_nat pw)
                   (default [] (pat !! bcast_index ph ph k))) <$> range ph).
  assert (length mid = ph) as Hmidlen
    by (unfold mid, range; by rewrite length_fmap, length_seq).
  assert (∀ k, (k < ph)%nat ->
            ∃ row prow, g !! (r' + k)%nat = Some row ∧ length row = W
                        ∧ pat !! k = Some prow ∧ length prow = pw
                        ∧ mid !! k
                          = Some (take c' row ++ (cast <$> prow)
                                    ++ drop (c' + pw) row))
    as Hmidk.
  { intros k Hk. destruct (Hmid k Hk) as (row & prow & H1 & H2 & H3 & H4 & H5).
    exists row, prow. repeat (split; [done|]).
    unfold mid, range. rewrite list_lookup_fmap, lookup_seq_lt by done.
    cbn. by rewrite H5. }
  exists (take r' g ++ mid ++ drop (r' + ph) g).
  split; [|split].
  - unfold setslice2. rewrite Hshape, Hth, Htw, Hr'.
    unfold broadcastable.
    rewrite (bool_decide_eq_true_2 (ph = ph)), (bool_decide_eq_true_2 (pw = pw))
      by done.
    done.
  - split; [rewrite (splice_length g mid r' ph); [done|done|lia]|].
    apply Forall_lookup_2. intros x rw Hx.
    rewrite (splice_lookup g mid r' ph x) in Hx by (done || lia).
    destruct (decide (r' <= x < r' + ph)%nat) as [Hin|Hout].
    + destruct (Hmidk (x - r')%nat ltac:(lia))
        as (row & prow & _ & Hlen & _ & Hplen & Hk).
      rewrite Hk in Hx. injection Hx as <-.
      rewrite (splice_length row (cast <$> prow) c' pw);
        [done|by rewrite length_fmap|lia].
    + by apply (Forall_lookup_1 _ _ _ _ Hrows Hx).
  - intros x y Hx Hy. unfold cell at 1.
    rewrite (splice_lookup g mid r' ph x) by (done || lia).
    destruct (decide (r' <= x < r' + ph)%nat) as [Hin|Hout].
    + destruct (Hmidk (x - r')%nat ltac:(lia))
        as (row & prow & Hrow & Hlen & Hprow & Hplen & Hk).
      rewrite Hk. cbn [mbind option_bind].
      rewrite (splice_lookup row (cast <$> prow) c' pw y)
        by (by rewrite length_fmap || lia).
      replace (r' + (x - r'))%nat with x in Hrow by lia.
      destruct (decide (c' <= y < c' + pw)%nat) as [Hyin|Hyout].
      * rewrite decide_True by lia. unfold cell.
        replace (Z.to_nat (Z.of_nat x - r)) with (x - r')%nat by lia.
        replace (Z.to_nat (Z.of_nat y - c)) with (y - c')%nat by lia.
        rewrite Hprow. cbn [mbind option_bind]. rewrite list_lookup_fmap.
        destruct (lookup_lt_is_Some_2 prow (y - c')%nat ltac:(lia)) as [v ->].
        done.
      * rewrite decide_False by lia. unfold cell. by rewrite Hrow.
    + rewrite decide_False by lia. done.
Qed.



Lemma clamp_origin_fits (extent size : nat) (i : Z) :
  (size <= extent)%nat ->
  0 <= MainWindow.clamp_origin extent size i <= Z.of_nat extent - Z.of_nat size.
Proof. intros Hfit. unfold MainWindow.clamp_origin. lia. Qed.





(** * Further properties of the code *)

(** ** Statistics *)

Lemma Zsum_population_row (l : list Z) :
  Forall (fun v : Z => v = 0 ∨ v = 1) l ->
  Zsum l = Z.of_nat (length (filter (fun v : Z => v = 1) l)).
Proof.
  induction 1 as [|v l Hv _ IH]; [done|].
  change (Zsum (v :: l)) with (v + Zsum l). rewrite IH, filter_cons.
  destruct (decide (v = 1)); cbn [length]; lia.
Qed.

Lemma sum_population (a : ndarray) : binary a -> sum a = population a.
Proof.
  intros Hb. unfold sum, population. apply Zsum_population_row.
  by apply Forall_concat.
Qed.

Lemma rect_cells (h w : nat) (a : ndarray) :
  rect h w a -> length (concat a) = (h * w)%nat.
Proof.
  intros [<- Hrows]. induction Hrows as [|row a Hrow _ IH]; [done|].
  cbn [concat length]. rewrite length_app, IH, Hrow. lia.
Qed.

Lemma population_zero (a : ndarray) :
  binary a -> population a = 0 ↔ all_dead a.
Proof.
  intros Hb. unfold population, all_dead, binary in *.
  rewrite <- Forall_concat. apply Forall_concat in Hb.
  induction Hb as [|v l Hv _ IH]; [split; [constructor|done]|].
  rewrite filter_cons. destruct (decide (v = 1)) as [->|Hne].
  - cbn [length]. split; [lia|]. intros Hd. apply Forall_cons in Hd as [Hd _]. lia.
  - split.
    + intros Hz. constructor; [lia|]. by apply IH.
    + intros Hd. apply Forall_cons in Hd as [_ Hd]. by apply IH.
Qed.

(** X1.  On an engine whose grid has the recorded extent and holds only 0
    and 1, [get_statistics] reports the generation counter, the number of
    alive cells and the number of cells of the grid; the number of alive
    cells lies between 0 and the number of cells, and it is 0 exactly when no
    cell is alive.  Right after [clear] it is 0. *)
Theorem X1_statistics (self : GameOfLife) :
  well_shaped self -> binary (grid self) ->
  let st := Queries.get_statistics self in
  Queries.stat_generation st = generation self
  ∧ Queries.alive_cells st = population (grid self)
  ∧ Queries.total_cells st = Z.of_nat (length (concat (grid self)))
  ∧ 0 <= Queries.alive_cells st <= Queries.total_cells st
  ∧ Queries.density_operands st = (Queries.alive_cells st, Queries.total_cells st)
  ∧ (Queries.alive_cells st = 0 ↔ all_dead (grid self))
  ∧ Queries.alive_cells (Queries.get_statistics (snd (clear self))) = 0.
Proof.
  intros Hshape Hbin st.
  pose proof (rect_cells _ _ _ Hshape) as Hcells.
  pose proof (sum_population _ Hbin) as Hsum.
  assert (population (grid self) <= Z.of_nat (length (concat (grid self)))) as Hle.
  { unfold population.
    pose proof (length_filter (fun v : Z => v = 1) (concat (grid self))). lia. }
  unfold st, Queries.get_statistics.
  cbn [Queries.stat_generation Queries.alive_cells Queries.total_cells
       Queries.density_operands].
  split; [done|]. split; [done|]. split; [lia|].
  split; [unfold population in *; lia|]. split; [done|]. split.
  - rewrite Hsum. by apply population_zero.
  - cbn [clear snd set_grid grid].
    pose proof (fill_zero_dead (grid self)) as Hd.
    rewrite sum_population by by apply all_dead_binary.
    by apply population_zero; [apply all_dead_binary|].
Qed.

Lemma X1_statistics_witness :
  let self := snd (MainWindow.place MainWindow.glider 0 0 (init 5 4)) in
  (well_shaped self ∧ binary (grid self))
  ∧ Queries.alive_cells (Queries.get_statistics self) = 5
  ∧ 0 <= Queries.alive_cells (Queries.get_statistics self)
         <= Queries.total_cells (Queries.get_statistics self).
Proof.
  intros self.
  assert (well_shaped self) as H1 by (unfold well_shaped, rect; by_eval).
  assert (binary (grid self)) as H2 by (unfold binary; by_eval).
  split; [by split|]. split; [reflexivity|].
  exact (proj1 (proj2 (proj2 (proj2 (X1_statistics self H1 H2))))).
Defined.

(** ** Clicks on the view *)

Lemma setitem_wrap (h w : nat) (a : ndarray) (x y v : Z) :
  rect h w a ->
  - Z.of_nat h <= x < Z.of_nat h -> - Z.of_nat w <= y < Z.of_nat w ->
  setitem a x y v
  = Return (upd a (Z.to_nat (x `mod` Z.of_nat h)) (Z.to_nat (y `mod` Z.of_nat w)) v).
Proof.
  intros Ha Hx Hy.
  assert (0 <= x `mod` Z.of_nat h < Z.of_nat h) as Hxm
    by (apply Z.mod_pos_bound; lia).
  assert (0 <= y `mod` Z.of_nat w < Z.of_nat w) as Hym
    by (apply Z.mod_pos_bound; lia).
  rewrite <- (setitem_in h w) by (done || lia).
  rewrite !Z2Nat.id by lia.
  unfold setitem. destruct Ha as [Hl Hrows]. rewrite Hl.
  rewrite !py_index_wrap, !bind_Return by (done || lia).
  rewrite Z.mod_mod by lia.
  destruct (rect_lookup h w a (Z.to_nat (x `mod` Z.of_nat h))
              (conj Hl Hrows) ltac:(lia)) as (row & Hrow & Hlen).
  rewrite Hrow, Hlen.
  rewrite !py_index_wrap, !bind_Return by (done || lia).
  by rewrite Z.mod_mod by lia.
Qed.

Lemma setitem_raise (h w : nat) (a : ndarray) (x y v : Z) :
  rect h w a ->
  ¬ (- Z.of_nat h <= x < Z.of_nat h ∧ - Z.of_nat w <= y < Z.of_nat w) ->
  setitem a x y v = Raise IndexError.
Proof.
  intros Ha Hout. unfold setitem. pose proof Ha as [Hl Hrows]. rewrite Hl.
  destruct (decide (- Z.of_nat h <= x < Z.of_nat h)) as [Hx|Hx].
  - rewrite py_index_wrap, bind_Return by done.
    assert (0 <= x `mod` Z.of_nat h < Z.of_nat h) as Hxm
      by (apply Z.mod_pos_bound; lia).
    destruct (rect_lookup h w a (Z.to_nat (x `mod` Z.of_nat h)) Ha ltac:(lia))
      as (row & Hrow & Hlen).
    rewrite Hrow, Hlen. by rewrite py_index_raise by lia.
  - by rewrite py_index_raise by done.
Qed.

Lemma upd_upd (h w : nat) (a : ndarray) (i j : nat) (u v : Z) :
  rect h w a -> (i < h)%nat -> (j < w)%nat ->
  upd (upd a i j u) i j v = upd a i j v.
Proof.
  intros Ha Hi Hj.
  apply (rect_ext h w); [by do 2 apply upd_rect|by apply upd_rect|].
  intros x y Hx Hy.
  destruct (decide ((x, y) = (i, j))) as [[= -> ->]|Hne].
  - rewrite !(cell_upd_eq h w); [done|done..|by apply upd_rect|done|done].
  - by rewrite !cell_upd_ne by done.
Qed.

(** X2.  [handle_cell_click] writes through numpy's indexing.  On a
    well-shaped engine, for every row index from [-height] to [height - 1]
    and column index from [-width] to [width - 1] the call returns normally;
    the cell written is the one at the index taken modulo the extent (a
    negative index counts from the far edge); it becomes 1 for the left
    button and 0 otherwise; every other cell, the history and the generation
    counter are unchanged; a binary grid stays binary; and repeating the same
    click changes nothing more. *)
Theorem X2_click_valid_index (game : GameOfLife) (i j : Z) (is_left : bool) :
  well_shaped game ->
  - Z.of_nat (height game) <= i < Z.of_nat (height game) ->
  - Z.of_nat (width game) <= j < Z.of_nat (width game) ->
  let r := Z.to_nat (i `mod` Z.of_nat (height game)) in
  let c := Z.to_nat (j `mod` Z.of_nat (width game)) in
  Z.of_nat r = (if decide (0 <= i) then i else i + Z.of_nat (height game))
  ∧ Z.of_nat c = (if decide (0 <= j) then j else j + Z.of_nat (width game))
  ∧ ∃ game',
      Window.handle_cell_click i j is_left game = (Return (), game')
      ∧ cell (grid game') r c = (if is_left then 1 else 0)
      ∧ (∀ x y, (x, y) ≠ (r, c) -> cell (grid game') x y = cell (grid game) x y)
      ∧ history game' = history game
      ∧ generation game' = generation game
      ∧ well_shaped game'
      ∧ (binary (grid game) -> binary (grid game'))
      ∧ Window.handle_cell_click i j is_left game' = (Return (), game').
Proof.
  intros Hshape Hi Hj r c.
  assert (0 <= i `mod` Z.of_nat (height game) < Z.of_nat (height game)) as Him
    by (apply Z.mod_pos_bound; lia).
  assert (0 <= j `mod` Z.of_nat (width game) < Z.of_nat (width game)) as Hjm
    by (apply Z.mod_pos_bound; lia).
  split; [|split].
  - unfold r. rewrite Z2Nat.id by lia. destruct (decide (0 <= i)).
    + apply Z.mod_small. lia.
    + symmetry. apply (Z.mod_unique_pos _ _ (-1)); lia.
  - unfold c. rewrite Z2Nat.id by lia. destruct (decide (0 <= j)).
    + apply Z.mod_small. lia.
    + symmetry. apply (Z.mod_unique_pos _ _ (-1)); lia.
  - exists (set_grid game (upd (grid game) r c (if is_left then 1 else 0))).
    assert (rect (height game) (width game)
              (upd (grid game) r c (if is_left then 1 else 0))) as Hrect
      by by apply upd_rect.
    split.
    { unfold Window.handle_cell_click.
      rewrite (setitem_wrap (height game) (width game)) by done.
      by apply draw_and_return_well_shaped. }
    cbn [grid set_grid history generation].
    split; [apply (cell_upd_eq (height game) (width game)); [done|lia|lia]|].
    split; [intros x y Hne; by apply cell_upd_ne|].
    split; [done|]. split; [done|]. split; [done|]. split.
    + intros Hb. apply upd_binary; [done|]. destruct is_left; [by right|by left].
    + unfold Window.handle_cell_click. cbn [grid set_grid height width].
      rewrite (setitem_wrap (height game) (width game)) by done.
      fold r c. rewrite (upd_upd (height game) (width game)) by (done || lia).
      by apply draw_and_return_well_shaped.
Qed.

Lemma X2_click_valid_index_witness :
  let game := init 4 3 in
  (well_shaped game ∧ - 3 <= -1 < 3 ∧ - 4 <= 2 < 4)
  ∧ ∃ game', Window.handle_cell_click (-1) 2 true game = (Return (), game')
             ∧ cell (grid game') 2 2 = 1.
Proof.
  intros game.
  assert (well_shaped game) as H1 by apply zeros_rect.
  assert (- Z.of_nat (height game) <= -1 < Z.of_nat (height game)) as H2
    by (change (height game) with 3%nat; lia).
  assert (- Z.of_nat (width game) <= 2 < Z.of_nat (width game)) as H3
    by (change (width game) with 4%nat; lia).
  split; [split; [exact H1|lia]|].
  destruct (X2_click_valid_index game (-1) 2 true H1 H2 H3)
    as (_ & _ & game' & Hrun & Hcell & _).
  exists game'. split; [exact Hrun|exact Hcell].
Defined.

(** X3.  With any other index, a row below [-height] or from [height] on,
    or a column below [-width] or from [width] on, [handle_cell_click]
    raises [IndexError] and leaves the engine as it is. *)
Theorem X3_click_index_error (game : GameOfLife) (i j : Z) (is_left : bool) :
  well_shaped game ->
  ¬ (- Z.of_nat (height game) <= i < Z.of_nat (height game)
     ∧ - Z.of_nat (width game) <= j < Z.of_nat (width game)) ->
  Window.handle_cell_click i j is_left game = (Raise IndexError, game).
Proof.
  intros Hshape Hout. unfold Window.handle_cell_click.
  by rewrite (setitem_raise (height game) (width game)) by done.
Qed.

Lemma X3_click_index_error_witness :
  (well_shaped default_game ∧ ¬ (- 50 <= 50 < 50 ∧ - 50 <= 0 < 50))
  ∧ Window.handle_cell_click 50 0 true default_game
    = (Raise IndexError, default_game).
Proof.
  assert (well_shaped default_game) as H1 by apply zeros_rect.
  assert (¬ (- Z.of_nat (height default_game) <= 50 < Z.of_nat (height default_game)
             ∧ - Z.of_nat (width default_game) <= 0 < Z.of_nat (width default_game)))
    as H2 by (change (height default_game) with 50%nat; lia).
  split; [split; [exact H1|lia]|].
  exact (X3_click_index_error default_game 50 0 true H1 H2).
Defined.

(** ** Zooming *)

(** X4.  Whatever wheel events a view receives, the size of its cells
    stays between 5 and 50; one event changes it by at most 2, and a turn
    forward followed by a turn back gives the size again unless the upper
    limit was hit. *)
Theorem X4_cell_size_bounds (deltas : list Z) (d cs : Z) :
  5 <= cs <= 50 ->
  5 <= foldl (fun c dy => GameView.wheelEvent dy c) GameView.initial_cell_size deltas
    <= 50
  ∧ 5 <= GameView.wheelEvent d cs <= 50
  ∧ cs - 2 <= GameView.wheelEvent d cs <= cs + 2
  ∧ (cs + 2 <= 50 -> GameView.wheelEvent (-1) (GameView.wheelEvent 1 cs) = cs).
Proof.
  intros Hcs.
  assert (∀ dy c, 5 <= c <= 50 -> 5 <= GameView.wheelEvent dy c <= 50) as Hstep.
  { intros dy c Hc. unfold GameView.wheelEvent. destruct (0 <? dy); lia. }
  split; [|split; [by apply Hstep|split]].
  - assert (5 <= GameView.initial_cell_size <= 50) as Hinit
      by (unfold GameView.initial_cell_size; lia).
    revert Hinit. generalize GameView.initial_cell_size.
    induction deltas as [|dy deltas IH]; intros c Hc; [done|].
    cbn [foldl]. by apply IH, Hstep.
  - unfold GameView.wheelEvent. destruct (0 <? d); lia.
  - intros Hroom. unfold GameView.wheelEvent. cbn. lia.
Qed.

Lemma X4_cell_size_bounds_witness :
  5 <= 48 <= 50
  ∧ 5 <= foldl (fun c dy => GameView.wheelEvent dy c) GameView.initial_cell_size
           [120; 120; -120] <= 50.
Proof.
  assert (5 <= 48 <= 50) as H1 by lia.
  split; [exact H1|].
  exact (proj1 (X4_cell_size_bounds [120; 120; -120] 1 48 H1)).
Defined.

(** ** Edits and the history *)

Lemma undo_set_grid (self : GameOfLife) (g : ndarray) :
  history self ≠ [] -> undo (set_grid self g) = undo self.
Proof.
  intros Hne. destruct (exists_last Hne) as (rest & g' & Hh).
  rewrite (undo_snoc self rest g' Hh).
  by rewrite (undo_snoc (set_grid self g) rest g' Hh).
Qed.

Lemma edit_only_grid (a : Window.action) (game : GameOfLife) :
  is_edit a = true -> ∃ g, Window.perform a game = set_grid game g.
Proof.
  destruct a as [|i j l| |draw| |name ci cj| |f]; try done; intros _;
    cbn [Window.perform].
  - unfold Window.handle_cell_click.
    destruct (setitem _ _ _ _) as [g|e]; cbn [snd]; eexists; [done|].
    symmetry. apply set_grid_same.
  - by eexists.
  - by eexists.
  - unfold MainWindow.apply_pattern, MainWindow.place.
    destruct (shape _) as [ph pw].
    destruct (setslice2 _ _ _ _ _ _) as [g|e]; cbn [snd]; eexists; [done|].
    symmetry. apply set_grid_same.
  - destruct f as [|[arr|e]]; cbn [MainWindow.load_state snd]; eexists;
      [symmetry; apply set_grid_same|done|symmetry; apply set_grid_same].
Qed.

(** X5.  Edits are not recorded.  Clicks, clearing, random filling, the
    placing of a pattern and the loading of a file change nothing but the
    grid, and so does [toggle_cell]; when the history is not empty, [undo]
    after any of them gives exactly what [undo] would have given without
    the edit: the edit is lost and the grid of before the last step comes
    back. *)
Theorem X5_undo_discards_edits (a : Window.action) (game : GameOfLife) (i j : Z) :
  is_edit a = true -> history game ≠ [] ->
  history (Window.perform a game) = history game
  ∧ generation (Window.perform a game) = generation game
  ∧ undo (Window.perform a game) = undo game
  ∧ undo (snd (toggle_cell i j game)) = undo game
  ∧ fst (undo game) = Return true.
Proof.
  intros Hedit Hne.
  destruct (edit_only_grid a game Hedit) as (g & ->).
  split; [done|]. split; [done|]. split; [by apply undo_set_grid|]. split.
  - unfold toggle_cell.
    destruct (_ && _); [|done].
    destruct (_ ≫= _) as [g'|e]; cbn [snd]; [by apply undo_set_grid|done].
  - destruct (exists_last Hne) as (rest & g' & Hh).
    by rewrite (undo_snoc game rest g' Hh).
Qed.

Lemma X5_undo_discards_edits_witness :
  let game := snd (update (snd (Window.handle_cell_click 1 1 true (init 3 3)))) in
  (is_edit (Window.ApplyPattern Window.Block 0 0) = true ∧ history game ≠ [])
  ∧ undo (Window.perform (Window.ApplyPattern Window.Block 0 0) game) = undo game.
Proof.
  intros game.
  assert (is_edit (Window.ApplyPattern Window.Block 0 0) = true) as H1
    by reflexivity.
  assert (history game ≠ []) as H2 by (vm_compute; discriminate).
  split; [by split|].
  exact (proj1 (proj2 (proj2
           (X5_undo_discards_edits (Window.ApplyPattern Window.Block 0 0)
              game 0 0 H1 H2)))).
Defined.

(** ** Steps undone *)

Lemma trim_zero (self : GameOfLife) : trim 0 self = self.
Proof. unfold trim. rewrite drop_0. by destruct self. Qed.

Lemma trim_trim (d e : nat) (self : GameOfLife) :
  trim e (trim d self) = trim (d + e) self.
Proof. unfold trim. cbn [history set_history]. by rewrite drop_drop. Qed.

(** [undo] right after [update] gives the engine back, short of the oldest
    snapshot when the history was full. *)
Lemma undo_update (self : GameOfLife) :
  well_shaped self -> (length (history self) <= 50)%nat ->
  undo (snd (update self))
  = (Return true,
     trim (if decide (length (history self) < 50)%nat then 0 else 1) self).
Proof.
  intros Hshape Hlen.
  destruct (update_spec self Hshape) as (g & -> & _). cbn [snd].
  destruct (pushed_snoc (history self) (grid self))
    as (hs' & Hh & [[Hlt ->]|[Hge ->]]).
  - match goal with
    | |- undo ?s = _ => rewrite (undo_snoc s (history self) (grid self) Hh)
    end.
    rewrite decide_True by done. rewrite trim_zero.
    cbn [width height generation boundary_type]. f_equal.
    destruct self; cbn. f_equal. lia.
  - match goal with
    | |- undo ?s = _ => rewrite (undo_snoc s (tail (history self)) (grid self) Hh)
    end.
    rewrite decide_False by lia.
    cbn [width height generation boundary_type]. f_equal.
    unfold trim, set_history. destruct self as [w h g0 gen hs bt]; cbn.
    f_equal; first [lia | by destruct hs].
Qed.

Lemma undo_trim (d : nat) (self : GameOfLife) :
  (d < length (history self))%nat ->
  undo (trim d self) = (fst (undo self), trim d (snd (undo self))).
Proof.
  intros Hd.
  destruct (decide (history self = [])) as [Hnil|Hne].
  { rewrite Hnil in Hd. cbn in Hd. lia. }
  destruct (exists_last Hne) as (rest & g & Hh).
  rewrite Hh, length_app in Hd. cbn [length] in Hd.
  rewrite (undo_snoc self rest g Hh). cbn [fst snd].
  rewrite (undo_snoc (trim d self) (drop d rest) g).
  - done.
  - unfold trim. cbn [history set_history]. rewrite Hh.
    by rewrite drop_app_le by lia.
Qed.

Lemma undo_history_length (self : GameOfLife) :
  length (history (snd (undo self))) = (length (history self) - 1)%nat.
Proof.
  destruct (decide (history self = [])) as [Hnil|Hne].
  - rewrite (undo_empty self Hnil). cbn [snd]. rewrite Hnil. done.
  - destruct (exists_last Hne) as (rest & g & Hh).
    rewrite (undo_snoc self rest g Hh). cbn [snd history].
    rewrite Hh, length_app. cbn [length]. lia.
Qed.

Lemma undos_trim (k d : nat) (self : GameOfLife) :
  (d + k <= length (history self))%nat ->
  undos k (trim d self) = (fst (undos k self), trim d (snd (undos k self))).
Proof.
  revert self. induction k as [|k IH]; intros self Hk; [done|].
  cbn [undos]. rewrite undo_trim by lia.
  destruct (undo self) as [r self'] eqn:Hu. cbn [fst snd].
  pose proof (undo_history_length self) as Hl. rewrite Hu in Hl. cbn [snd] in Hl.
  rewrite IH by lia.
  by destruct (undos k self').
Qed.

(** X6.  On an engine reached by requests, [k] steps followed by [k]
    undos, for [k] up to 50, all succeed and bring back the grid and the
    generation counter of before the steps; the history comes back too, short
    of the oldest snapshots that the steps pushed out of the 50 places.  When
    the history had room for the [k] steps the whole engine is exactly as it
    was. *)
Theorem X6_steps_undone (self : GameOfLife) (k : nat) :
  reachable self -> (k <= 50)%nat ->
  undos k (steps k self)
  = (replicate k (Return true),
     trim (length (history self) + k - 50) self)
  ∧ grid (snd (undos k (steps k self))) = grid self
  ∧ generation (snd (undos k (steps k self))) = generation self
  ∧ ((length (history self) + k <= 50)%nat ->
       snd (undos k (steps k self)) = self).
Proof.
  intros Hreach Hk.
  pose proof (reachable_invariant self Hreach) as Hinv.
  assert (undos k (steps k self)
          = (replicate k (Return true),
             trim (length (history self) + k - 50) self)) as Hmain.
  { induction k as [|k IH].
    - cbn [undos steps Nat.iter replicate].
      replace (length (history self) + 0 - 50)%nat with 0%nat
        by (destruct Hinv as (_ & _ & _ & Hlen & _); lia).
      by rewrite trim_zero.
    - specialize (IH ltac:(lia)).
      destruct (steps_invariant k self Hinv) as [Hinvk Hlenk].
      destruct Hinvk as (Hshapek & _ & _ & Hboundk & _).
      destruct Hinv as (_ & _ & _ & Hlen & _).
      change (steps (S k) self) with (snd (update (steps k self))).
      cbn [undos]. rewrite (undo_update _ Hshapek Hboundk).
      rewrite undos_trim by (destruct (decide _); lia).
      rewrite IH. cbn [fst snd replicate]. f_equal.
      rewrite trim_trim. f_equal.
      destruct (decide _); lia. }
  split; [done|]. rewrite Hmain. cbn [snd].
  split; [done|]. split; [done|].
  intros Hroom.
  replace (length (history self) + k - 50)%nat with 0%nat by lia.
  apply trim_zero.
Qed.

Lemma X6_steps_undone_witness :
  let self := run [Randomize (fun i j => Nat.odd (i * j + i)); Update; Update]
                (init 4 4) in
  (reachable self ∧ (7 <= 50)%nat)
  ∧ snd (undos 7 (steps 7 self)) = self.
Proof.
  intros self.
  assert (reachable self) as H1 by apply reachable_run, reachable_init.
  assert (7 <= 50)%nat as H2 by lia.
  split; [by split|].
  refine (proj2 (proj2 (proj2 (X6_steps_undone self 7 H1 H2))) _).
  vm_compute. lia.
Defined.

(** ** Sessions at the window *)

Lemma update_frame (self : GameOfLife) :
  width (snd (update self)) = width self
  ∧ height (snd (update self)) = height self
  ∧ history (snd (update self)) = pushed (history self) (grid self).
Proof.
  unfold update, pushed, copy. cbn [history set_history grid].
  destruct (decide (50 < length (history self ++ [grid self]))%nat);
    destruct (update_loops _ _); done.
Qed.

Lemma undo_frame (self : GameOfLife) :
  width (snd (undo self)) = width self
  ∧ height (snd (undo self)) = height self
  ∧ (length (history (snd (undo self))) <= length (history self))%nat.
Proof.
  pose proof (undo_history_length self) as Hl.
  unfold undo in *. destruct (pop (history self)) as [[rest g]|]; cbn in *; lia.
Qed.

Lemma place_fits (game : GameOfLife) (pattern : ndarray) (ph pw : nat) (i j : Z) :
  well_shaped game -> shape pattern = (ph, pw) -> rect ph pw pattern ->
  (ph <= height game)%nat -> (pw <= width game)%nat ->
  ∃ g, MainWindow.place pattern i j game = (Return (), set_grid game g)
       ∧ rect (height game) (width game) g
       ∧ (binary pattern -> binary (grid game) -> binary g).
Proof.
  intros Hshape Hsh Hpat Hph Hpw.
  pose proof (clamp_origin_fits (height game) ph i Hph) as Hr.
  pose proof (clamp_origin_fits (width game) pw j Hpw) as Hc.
  destruct (setslice2_fits int8 (height game) (width game) ph pw (grid game)
              pattern
              (MainWindow.clamp_origin (height game) ph i)
              (MainWindow.clamp_origin (width game) pw j)
              Hshape Hpat Hsh ltac:(lia) ltac:(lia) ltac:(lia) ltac:(lia))
    as (g & Hrun & Hrect & Hcells).
  exists g. split.
  { unfold MainWindow.place. rewrite Hsh, Hrun.
    by apply draw_and_return_well_shaped. }
  split; [done|]. intros Hbp Hbg.
  apply (binary_of_cells (height game) (width game)); [done|].
  intros x y Hx Hy. rewrite Hcells by done.
  destruct (decide _); [|by apply binary_cell].
  rewrite int8_small; [by apply binary_cell|].
  destruct (binary_cell pattern (Z.to_nat (Z.of_nat x
              - MainWindow.clamp_origin (height game) ph i))
              (Z.to_nat (Z.of_nat y - MainWindow.clamp_origin (width game) pw j))
              Hbp); lia.
Qed.

Lemma patterns_small (name : Window.pattern_name) :
  ∃ ph pw, shape (Window.patterns name) = (ph, pw)
           ∧ rect ph pw (Window.patterns name)
           ∧ binary (Window.patterns name)
           ∧ (ph <= 4)%nat ∧ (pw <= 4)%nat.
Proof.
  destruct name; eexists; eexists; (split; [reflexivity|]);
    unfold rect, binary; by_eval.
Qed.

Lemma click_invariant (i j : Z) (l : bool) (game : GameOfLife) :
  invariant game -> invariant (snd (Window.handle_cell_click i j l game)).
Proof.
  intros Hinv. pose proof Hinv as (Hshape & Hbin & Hhist & Hlen & Hgen).
  unfold Window.handle_cell_click.
  destruct (decide (- Z.of_nat (height game) <= i < Z.of_nat (height game)
                    ∧ - Z.of_nat (width game) <= j < Z.of_nat (width game)))
    as [[Hi Hj]|Hout].
  - rewrite (setitem_wrap (height game) (width game)) by done.
    unfold invariant, well_shaped.
    cbn [snd grid height width history generation set_grid].
    split; [by apply upd_rect|]. split; [|done].
    apply upd_binary; [done|]. destruct l; [by right|by left].
  - by rewrite (setitem_raise (height game) (width game)) by done.
Qed.

Lemma perform_invariant (a : Window.action) (game : GameOfLife) :
  width game = 50%nat -> height game = 50%nat -> invariant game -> sane a ->
  invariant (Window.perform a game).
Proof.
  intros Hw Hh Hinv Hsane.
  destruct a as [|i j l| |draw| |name ci cj| |f]; cbn [Window.perform].
  - by apply (exec_invariant Update).
  - by apply click_invariant.
  - by apply (exec_invariant Clear).
  - by apply (exec_invariant (Randomize draw)).
  - by apply undo_invariant.
  - destruct Hinv as (Hshape & Hbin & Hhist & Hlen & Hgen).
    destruct (patterns_small name) as (ph & pw & Hsh & Hrect & Hbp & Hph & Hpw).
    unfold MainWindow.apply_pattern. rewrite Hsh.
    destruct (place_fits game (Window.patterns name) ph pw
                (ci - Z.of_nat ph `div` 2) (cj - Z.of_nat pw `div` 2)
                Hshape Hsh Hrect ltac:(lia) ltac:(lia)) as (g & -> & Hg & Hb).
    unfold invariant, well_shaped.
    cbn [snd grid height width history generation set_grid].
    split; [done|]. split; [by apply Hb|done].
  - apply init_invariant.
  - destruct f as [|[arr|e]]; unfold MainWindow.load_state, MainWindow.draw_and_return;
      cbn [snd]; [done| |done].
    destruct Hinv as (Hshape & Hbin & Hhist & Hlen & Hgen).
    destruct Hsane as [Harr Hb].
    unfold invariant, well_shaped.
    cbn [grid height width history generation set_grid].
    rewrite Hw, Hh in Hhist |- *. by repeat (split; [done|]).
Qed.

Lemma perform_extent (a : Window.action) (game : GameOfLife) :
  width game = 50%nat -> height game = 50%nat ->
  width (Window.perform a game) = 50%nat ∧ height (Window.perform a game) = 50%nat.
Proof.
  intros Hw Hh.
  destruct a as [|i j l| |draw| |name ci cj| |f]; cbn [Window.perform].
  - destruct (update_frame game) as (-> & -> & _). done.
  - unfold Window.handle_cell_click. by destruct (setitem _ _ _ _).
  - done.
  - done.
  - destruct (undo_frame game) as (-> & -> & _). done.
  - unfold MainWindow.apply_pattern, MainWindow.place.
    destruct (shape _). by destruct (setslice2 _ _ _ _ _ _).
  - done.
  - by destruct f as [|[arr|e]].
Qed.

Lemma perform_history (a : Window.action) (game : GameOfLife) :
  (length (history game) <= 50)%nat ->
  (length (history (Window.perform a game)) <= 50)%nat.
Proof.
  intros Hlen.
  destruct a as [|i j l| |draw| |name ci cj| |f]; cbn [Window.perform].
  - destruct (update_frame game) as (_ & _ & ->).
    rewrite pushed_length by done. lia.
  - unfold Window.handle_cell_click. by destruct (setitem _ _ _ _).
  - done.
  - done.
  - destruct (undo_frame game) as (_ & _ & Hl). lia.
  - unfold MainWindow.apply_pattern, MainWindow.place.
    destruct (shape _). by destruct (setslice2 _ _ _ _ _ _).
  - cbn. lia.
  - by destruct f as [|[arr|e]].
Qed.

(** The game after an action is the game the call leaves behind. *)
Lemma call_perform (a : Window.action) (game : GameOfLife) :
  snd (Window.call a game) = Window.perform a game.
Proof.
  destruct a as [|i j l| |draw| |name ci cj| |f];
    cbn [Window.call Window.perform]; try done.
  - unfold Window.update_game, Window.then_draw.
    by destruct (update game) as [[[]|e] g].
  - unfold Window.undo_action.
    by destruct (undo game) as [[[|]|e] g].
Qed.

(** In a window whose game is in order, a call returns normally, or it
    raises and leaves the game as it was. *)
Lemma call_ends (a : Window.action) (game : GameOfLife) :
  width game = 50%nat -> height game = 50%nat -> invariant game -> sane a ->
  Window.call a game = (Return (), Window.perform a game)
  ∨ ∃ e, Window.call a game = (Raise e, game) ∧ Window.perform a game = game.
Proof.
  intros Hw Hh Hinv Hsane.
  pose proof (perform_invariant a game Hw Hh Hinv Hsane) as (Hshape' & _).
  pose proof (draw_and_return_well_shaped _ Hshape') as Hdraw.
  destruct Hinv as (Hshape & _).
  destruct a as [|i j l| |draw| |name ci cj| |f];
    cbn [Window.call Window.perform] in Hdraw |- *.
  - left. destruct (update_spec game Hshape) as (g & Hrun & _).
    unfold Window.update_game, Window.then_draw.
    rewrite Hrun in Hdraw |- *. exact Hdraw.
  - unfold Window.handle_cell_click in Hdraw |- *.
    destruct (setitem _ _ _ _) as [g|e]; [left; exact Hdraw|].
    right. by exists e.
  - left. exact Hdraw.
  - left. exact Hdraw.
  - left. unfold Window.undo_action, undo in Hdraw |- *.
    destruct (pop (history game)) as [[rest g]|]; [exact Hdraw|done].
  - left. unfold MainWindow.apply_pattern.
    destruct (patterns_small name) as (ph & pw & Hsh & Hrect & Hbp & Hph & Hpw).
    rewrite Hsh.
    destruct (place_fits game (Window.patterns name) ph pw
                (ci - Z.of_nat ph `div` 2) (cj - Z.of_nat pw `div` 2)
                Hshape Hsh Hrect ltac:(lia) ltac:(lia)) as (g & -> & _).
    done.
  - left. exact Hdraw.
  - destruct f as [|[arr|e]]; [by left|left; exact Hdraw|].
    right. by exists e.
Qed.

(** X7.  In a window, whatever the user does through ticks, clicks and
    drags at any position, clearing, random filling, undo, the pattern menu
    and new games, and through loading files that hold binary 50 by 50
    matrices, the game keeps a 50 by 50 grid of zeros and ones, at most 50
    snapshots of the same kind, and a generation counter that is at least
    the number of snapshots, hence never negative.  The game an action
    leaves behind is the one the session goes on with, whether the call
    returned or raised; and an action that raises (a click outside the
    array, a file that cannot be read) leaves the game as it was. *)
Theorem X7_window_invariant (acts : list Window.action) :
  Forall sane acts ->
  let game := Window.session acts in
  width game = 50%nat ∧ height game = 50%nat
  ∧ rect 50 50 (grid game) ∧ binary (grid game)
  ∧ Forall (fun g => rect 50 50 g ∧ binary g) (history game)
  ∧ (length (history game) <= 50)%nat
  ∧ 0 <= Z.of_nat (length (history game)) <= generation game
  ∧ (∀ a, snd (Window.call a game) = Window.session (acts ++ [a]))
  ∧ (∀ a e, sane a -> fst (Window.call a game) = Raise e ->
       Window.session (acts ++ [a]) = game).
Proof.
  intros Hsane game.
  assert (width game = 50%nat ∧ height game = 50%nat ∧ invariant game)
    as (Hw & Hh & Hinv).
  { unfold game, Window.session.
    assert (width default_game = 50%nat ∧ height default_game = 50%nat
            ∧ invariant default_game) as Hstart
      by (split; [done|split; [done|apply init_invariant]]).
    revert Hstart. generalize default_game.
    induction Hsane as [|a acts Ha _ IH]; intros g (Hw & Hh & Hinv); [done|].
    cbn [foldl]. apply IH.
    destruct (perform_extent a g Hw Hh) as [Hw' Hh'].
    split; [done|]. split; [done|]. by apply perform_invariant. }
  assert (∀ a, Window.session (acts ++ [a]) = Window.perform a game) as Hnext.
  { intros a. unfold game, Window.session. by rewrite foldl_app. }
  pose proof Hinv as (Hshape & Hbin & Hhist & Hlen & Hgen).
  unfold well_shaped in Hshape. rewrite Hw, Hh in Hshape, Hhist.
  do 6 (split; [done|]). split; [lia|]. split.
  - intros a. rewrite Hnext. apply call_perform.
  - intros a e Ha Hraise. rewrite Hnext.
    destruct (call_ends a game Hw Hh Hinv Ha) as [Hret|(e' & _ & Hsame)];
      [|done].
    by rewrite Hret in Hraise.
Qed.

Lemma X7_window_invariant_witness :
  let acts :=
    [Window.Click 3 4 true; Window.Click (-1) 60 true; Window.Tick;
     Window.ApplyPattern Window.Beacon 49 0; Window.UndoAction;
     Window.UndoAction; Window.LoadState MainWindow.NoFile; Window.Tick] in
  Forall sane acts
  ∧ 0 <= generation (Window.session acts)
  ∧ binary (grid (Window.session acts)).
Proof.
  intros acts.
  assert (Forall sane acts) as H1 by (repeat constructor).
  split; [exact H1|].
  destruct (X7_window_invariant acts H1) as (_ & _ & _ & Hb & _ & _ & Hg & _).
  split; [lia|exact Hb].
Defined.

(** X8.  Whatever is loaded, and whatever else the user does, the window's
    game keeps the recorded extent of 50 by 50 and never holds more than 50
    snapshots. *)
Theorem X8_session_history_bound (acts : list Window.action) :
  width (Window.session acts) = 50%nat
  ∧ height (Window.session acts) = 50%nat
  ∧ (length (history (Window.session acts)) <= 50)%nat.
Proof.
  unfold Window.session.
  assert (width default_game = 50%nat ∧ height default_game = 50%nat
          ∧ (length (history default_game) <= 50)%nat) as Hstart
    by (cbn; lia).
  revert Hstart. generalize default_game.
  induction acts as [|a acts IH]; intros g (Hw & Hh & Hlen); [done|].
  cbn [foldl]. apply IH.
  destruct (perform_extent a g Hw Hh) as [Hw' Hh'].
  split; [done|]. split; [done|]. by apply perform_history.
Qed.

(** ** A step on a grid smaller than the recorded extent *)

Section SmallGrid.

Context (self : GameOfLife) (h' w' : nat).
Context (Hgrid : rect h' w' (grid self)).

Lemma update_cell_ok (i j : nat) (ng : ndarray) :
  (i < h')%nat -> (j < w')%nat -> rect h' w' ng ->
  ∃ ng', update_cell self i j ng = Return ng' ∧ rect h' w' ng'.
Proof.
  intros Hi Hj Hng. unfold update_cell, _count_neighbors.
  rewrite !(getitem_in h' w'), !bind_Return by done.
  destruct (negb _).
  - destruct (_ || _); [|by exists ng].
    rewrite (setitem_in h' w') by done. eexists. split; [done|by apply upd_rect].
  - destruct (_ =? 3); [|by exists ng].
    rewrite (setitem_in h' w') by done. eexists. split; [done|by apply upd_rect].
Qed.

Lemma update_cell_raise (i j : nat) (ng : ndarray) :
  ¬ (i < h' ∧ j < w')%nat -> update_cell self i j ng = Raise IndexError.
Proof.
  intros Hout. unfold update_cell, _count_neighbors.
  by rewrite (getitem_raise h' w') by (done || lia).
Qed.

Lemma update_row_ok (i : nat) (ng : ndarray) :
  (i < h')%nat -> (width self <= w')%nat -> rect h' w' ng ->
  ∃ ng', for_in (range (width self)) (fun j t => update_cell self i j t) ng
         = Return ng' ∧ rect h' w' ng'.
Proof.
  intros Hi Hw Hng.
  apply (for_in_range_inv (fun _ t => rect h' w' t)); [done|].
  intros j t Hj Ht. apply update_cell_ok; [done|lia|done].
Qed.

Lemma update_row_raise (i : nat) (ng : ndarray) :
  (1 <= width self)%nat -> ¬ (i < h' ∧ width self <= w')%nat -> rect h' w' ng ->
  for_in (range (width self)) (fun j t => update_cell self i j t) ng
  = Raise IndexError.
Proof.
  intros Hw Hbad Hng.
  destruct (decide (i < h')%nat) as [Hi|Hi].
  - apply (for_in_seq_raise (fun _ t => rect h' w' t) _ w' IndexError);
      [|intros t _; apply update_cell_raise; lia|lia|done].
    intros j t Hj Ht. by apply update_cell_ok.
  - apply (for_in_seq_raise (fun _ t => rect h' w' t) _ 0%nat IndexError);
      [intros; lia|intros t _; apply update_cell_raise; lia|lia|done].
Qed.

Lemma update_loops_raise :
  (1 <= height self)%nat -> (1 <= width self)%nat ->
  (h' < height self ∨ w' < width self)%nat ->
  update_loops self (grid self) = Raise IndexError.
Proof.
  intros Hh Hw Hsmall. unfold update_loops.
  destruct (decide (width self <= w')%nat) as [Hwide|Hnarrow].
  - apply (for_in_seq_raise (fun _ t => rect h' w' t) _ h' IndexError);
      [|intros t Ht; apply update_row_raise; [done|lia|done]|lia|done].
    intros i t Hi Ht. by apply update_row_ok.
  - apply (for_in_seq_raise (fun _ t => rect h' w' t) _ 0%nat IndexError);
      [intros; lia|intros t Ht; apply update_row_raise; [done|lia|done]|lia|done].
Qed.

End SmallGrid.

(** X9.  When the grid is smaller than the extent the engine records, in
    rows or in columns (which a loaded file can bring about), [update]
    raises [IndexError].  The step is then half done: the snapshot has
    already been appended to the history, while the grid and the generation
    counter are as before.  An [undo] after the failed step returns [True],
    puts the same grid back and lowers the generation counter below its
    value of before the step. *)
Theorem X9_update_on_small_grid (self : GameOfLife) (h' w' : nat) :
  rect h' w' (grid self) ->
  (1 <= height self)%nat -> (1 <= width self)%nat ->
  (h' < height self ∨ w' < width self)%nat ->
  update self
  = (Raise IndexError, set_history self (pushed (history self) (grid self)))
  ∧ ∃ after,
      undo (snd (update self)) = (Return true, after)
      ∧ grid after = grid self
      ∧ generation after = generation self - 1.
Proof.
  intros Hgrid Hh Hw Hsmall.
  set (self' := set_history self (pushed (history self) (grid self))).
  assert (update self = (Raise IndexError, self')) as Hrun.
  { pose proof (update_loops_raise self' h' w' Hgrid Hh Hw Hsmall) as Hloops.
    unfold update, copy in *. cbn [history set_history grid].
    assert ((if decide (50 < length (history self ++ [grid self]))%nat
             then set_history (set_history self (history self ++ [grid self]))
                    (pop0 (history self ++ [grid self]))
             else set_history self (history self ++ [grid self])) = self') as ->.
    { unfold self', pushed. by destruct (decide _). }
    by rewrite Hloops. }
  split; [done|]. rewrite Hrun. cbn [snd].
  destruct (pushed_snoc (history self) (grid self)) as (hs' & Hpushed & _).
  eexists. split; [by apply (undo_snoc self' hs' (grid self))|done].
Qed.

Lemma X9_update_on_small_grid_witness :
  let self :=
    snd (MainWindow.load_state (MainWindow.File (Return [[1; 0]; [0; 1]])) (init 3 3)) in
  (rect 2 2 (grid self) ∧ (1 <= height self)%nat ∧ (1 <= width self)%nat
   ∧ (2 < height self ∨ 2 < width self)%nat)
  ∧ fst (update self) = Raise IndexError
  ∧ generation (snd (undo (snd (update self)))) = -1.
Proof.
  intros self.
  assert (rect 2 2 (grid self)) as H1 by (unfold rect; by_eval).
  assert (1 <= height self)%nat as H2 by (change (height self) with 3%nat; lia).
  assert (1 <= width self)%nat as H3 by (change (width self) with 3%nat; lia).
  assert (2 < height self ∨ 2 < width self)%nat as H4
    by (left; change (height self) with 3%nat; lia).
  split; [by repeat (split; [assumption|])|].
  destruct (X9_update_on_small_grid self 2 2 H1 H2 H3 H4)
    as [Hrun (after & Hundo & _ & Hgen)].
  split; [by rewrite Hrun|].
  rewrite Hundo. cbn [snd]. rewrite Hgen. reflexivity.
Defined.

(** ** [GameOfLife.py]: painting with the mouse *)

Lemma div_in_range (cs p : Z) (n : nat) :
  0 < cs -> (0 <= p < Z.of_nat n * cs ↔ 0 <= p `div` cs < Z.of_nat n).
Proof.
  intros Hcs.
  pose proof (Z.div_mod p cs ltac:(lia)) as Hdm.
  pose proof (Z.mod_pos_bound p cs Hcs) as Hr.
  generalize dependent (p `div` cs). generalize dependent (p `mod` cs).
  intros r Hr q Hdm. split; intros [H1 H2]; split; nia.
Qed.

Lemma motion_guard_spec (cs : Z) (n m : nat) (ij : Z * Z) :
  0 < cs ->
  Pygame.motion_guard cs (Z.of_nat n * cs) (Z.of_nat m * cs) ij = true
  ↔ 0 <= ij.1 < Z.of_nat n ∧ 0 <= ij.2 < Z.of_nat m.
Proof.
  intros Hcs. unfold Pygame.motion_guard.
  rewrite !andb_true_iff, !Z.ltb_lt. split.
  - intros [[[H1 H2] H3] H4]. nia.
  - intros [[H1 H2] [H3 H4]]. nia.
Qed.

Lemma setitem_nat (h w : nat) (a : ndarray) (i j v : Z) :
  rect h w a -> 0 <= i < Z.of_nat h -> 0 <= j < Z.of_nat w ->
  setitem a i j v = Return (upd a (Z.to_nat i) (Z.to_nat j) v).
Proof.
  intros Ha Hi Hj.
  rewrite <- (setitem_in h w) by (done || lia). by rewrite !Z2Nat.id by lia.
Qed.

(** X10.  In [main], when the window is a whole number of cells wide and
    high.  A drag never raises: over a position outside the window it leaves
    the grid as it is, inside the window it writes the cell under the
    pointer, 1 with the left button, 0 with the right one (0 when both are
    held), and no other cell.  A press inside the window writes the cell
    under the pointer in the same way.  The press is not guarded by any
    test: with button 1 or 3 at a position whose cell index is outside the
    grid it raises [IndexError] when the row index is not from [-n] to
    [n - 1] or the column index not from [-m] to [m - 1], and writes the cell
    counted from the far edge when the index is negative within these
    limits.  Any other button leaves the grid alone.  Whenever the call
    returns, the extent of the grid is kept. *)
Theorem X10_painting_whole_cells (cs x_size y_size : Z) (n m : nat)
    (grid : ndarray) (pos : Z * Z) (left right : bool) (button : Z) :
  0 < cs -> x_size = Z.of_nat n * cs -> y_size = Z.of_nat m * cs ->
  rect n m grid ->
  let i := Z.to_nat (Pygame.cell_at cs pos).1 in
  let j := Z.to_nat (Pygame.cell_at cs pos).2 in
  let in_window := 0 <= pos.1 < x_size ∧ 0 <= pos.2 < y_size in
  let in_reach :=
    - Z.of_nat n <= (Pygame.cell_at cs pos).1 < Z.of_nat n
    ∧ - Z.of_nat m <= (Pygame.cell_at cs pos).2 < Z.of_nat m in
  (∃ g, Pygame.mouse_motion cs x_size y_size pos left right grid = Return g
        ∧ rect n m g
        ∧ (∀ x y, (x, y) ≠ (i, j) -> cell g x y = cell grid x y)
        ∧ (¬ in_window -> g = grid)
        ∧ (in_window -> right = true -> cell g i j = 0)
        ∧ (in_window -> left = true -> right = false -> cell g i j = 1))
  ∧ (in_window ->
       ∃ g, Pygame.mouse_button_down cs pos button grid = Return g
            ∧ rect n m g
            ∧ (∀ x y, (x, y) ≠ (i, j) -> cell g x y = cell grid x y)
            ∧ (button = 1 -> cell g i j = 1)
            ∧ (button = 3 -> cell g i j = 0)
            ∧ (button ≠ 1 -> button ≠ 3 -> g = grid))
  ∧ (button ≠ 1 -> button ≠ 3 ->
       Pygame.mouse_button_down cs pos button grid = Return grid)
  ∧ (button = 1 ∨ button = 3 -> ¬ in_reach ->
       Pygame.mouse_button_down cs pos button grid = Raise IndexError)
  ∧ (button = 1 ∨ button = 3 -> in_reach ->
       Pygame.mouse_button_down cs pos button grid
       = Return (upd grid
                   (Z.to_nat ((Pygame.cell_at cs pos).1 `mod` Z.of_nat n))
                   (Z.to_nat ((Pygame.cell_at cs pos).2 `mod` Z.of_nat m))
                   (if button =? 1 then 1 else 0))).
Proof.
  intros Hcs -> -> Hgrid i j in_window in_reach.
  assert (in_window ↔ 0 <= (Pygame.cell_at cs pos).1 < Z.of_nat n
                      ∧ 0 <= (Pygame.cell_at cs pos).2 < Z.of_nat m) as Hwin.
  { unfold in_window, Pygame.cell_at. cbn [fst snd].
    by rewrite !(div_in_range cs) by done. }
  pose proof (motion_guard_spec cs n m (Pygame.cell_at cs pos) Hcs) as Hguard.
  rewrite <- Hwin in Hguard.
  unfold Pygame.mouse_motion, Pygame.mouse_button_down.
  unfold in_reach. clear in_reach.
  destruct (Pygame.cell_at cs pos) as [pi pj] eqn:Hcell. cbn [fst snd] in *.
  split; [|split; [|split; [|split]]].
  - destruct (Pygame.motion_guard _ _ _ _) eqn:Hg.
    + assert in_window as Hin by by apply Hguard.
      apply Hwin in Hin as [Hi Hj].
      assert (rect n m (upd grid i j 1)) as Hone by by apply upd_rect.
      destruct left, right; cbn [andb];
        rewrite ?(setitem_nat n m grid) by done; rewrite ?bind_Return;
        rewrite ?(setitem_nat n m) by done; fold i j;
        eexists; (split; [reflexivity|]);
        (split; [by repeat apply upd_rect|]);
        (split; [intros x y Hne; by rewrite ?cell_upd_ne by done|]);
        (split; [intros Hout; exfalso; apply Hout, Hguard; done|]);
        (split; [intros _ Hr|intros _ Hl Hr]); try done;
        apply (cell_upd_eq n m); (done || lia).
    + assert (¬ in_window) as Hout.
      { intros Hin. apply Hguard in Hin. congruence. }
      rewrite !andb_false_r. rewrite bind_Return.
      exists grid. by repeat (split; [done|]).
  - intros Hin. apply Hwin in Hin as [Hi Hj].
    destruct (Z.eqb_spec button 1) as [->|H1].
    { rewrite (setitem_nat n m) by done. fold i j.
      eexists. split; [done|]. split; [by apply upd_rect|].
      split; [intros x y Hne; by apply cell_upd_ne|].
      split; [intros _; apply (cell_upd_eq n m); (done || lia)|].
      split; [done|done]. }
    destruct (Z.eqb_spec button 2) as [->|H2].
    { exists grid. by repeat (split; [done|]). }
    destruct (Z.eqb_spec button 3) as [->|H3].
    { rewrite (setitem_nat n m) by done. fold i j.
      eexists. split; [done|]. split; [by apply upd_rect|].
      split; [intros x y Hne; by apply cell_upd_ne|].
      split; [done|].
      split; [intros _; apply (cell_upd_eq n m); (done || lia)|done]. }
    exists grid. by repeat (split; [done|]).
  - intros H1 H3.
    destruct (Z.eqb_spec button 1) as [?|_]; [done|].
    destruct (Z.eqb_spec button 2) as [?|_]; [done|].
    by destruct (Z.eqb_spec button 3) as [?|_].
  - intros [-> | ->] Hout; cbn [Z.eqb Pos.eqb];
      by apply (setitem_raise n m).
  - intros [-> | ->] [Hi Hj]; cbn [Z.eqb Pos.eqb];
      by apply (setitem_wrap n m).
Qed.

Lemma X10_painting_whole_cells_witness :
  (0 < 10 ∧ 30 = Z.of_nat 3 * 10 ∧ 20 = Z.of_nat 2 * 10 ∧ rect 3 2 (zeros 3 2))
  ∧ (∃ g, Pygame.mouse_motion 10 30 20 (25, 4) true false (zeros 3 2) = Return g
          ∧ cell g 2 0 = 1)
  ∧ Pygame.mouse_button_down 10 (30, 4) 1 (zeros 3 2) = Raise IndexError.
Proof.
  assert (0 < 10) as H1 by lia.
  assert (30 = Z.of_nat 3 * 10) as H2 by reflexivity.
  assert (20 = Z.of_nat 2 * 10) as H3 by reflexivity.
  assert (rect 3 2 (zeros 3 2)) as H4 by apply zeros_rect.
  split; [by repeat (split; [assumption|])|].
  destruct (X10_painting_whole_cells 10 30 20 3 2 (zeros 3 2) (25, 4) true false 1
              H1 H2 H3 H4) as [(g & Hrun & _ & _ & _ & _ & Hone) _].
  split.
  - exists g. split; [exact Hrun|].
    apply Hone; [cbn; lia|reflexivity|reflexivity].
  - apply (proj1 (proj2 (proj2 (proj2
             (X10_painting_whole_cells 10 30 20 3 2 (zeros 3 2) (30, 4)
                true false 1 H1 H2 H3 H4))))); [by left|].
    intros [[_ H] _]. vm_compute in H. discriminate H.
Defined.

(** X11.  When the width of the window is not a whole number of cells,
    the strip of pixels right of the last whole cell is inside the window
    but outside the grid: the test of the drag handler lets it pass, and a
    drag with the left or right button, or a press of button 1 or 3, over any
    position of that strip raises [IndexError]. *)
Theorem X11_painting_partial_cell (cs x_size y_size : Z) (n m : nat)
    (grid : ndarray) (pos : Z * Z) (left right : bool) :
  0 < cs -> Z.of_nat n = x_size `div` cs -> rect n m grid ->
  Z.of_nat n * cs <= pos.1 < x_size -> 0 <= pos.2 < y_size ->
  left || right = true ->
  Pygame.motion_guard cs x_size y_size (Pygame.cell_at cs pos) = true
  ∧ Pygame.mouse_motion cs x_size y_size pos left right grid = Raise IndexError
  ∧ Pygame.mouse_button_down cs pos 1 grid = Raise IndexError
  ∧ Pygame.mouse_button_down cs pos 3 grid = Raise IndexError.
Proof.
  intros Hcs Hn Hgrid Hx Hy Hbutton.
  assert (pos.1 `div` cs = Z.of_nat n) as Hi.
  { pose proof (Z.div_mod x_size cs ltac:(lia)) as Hdm.
    pose proof (Z.mod_pos_bound x_size cs Hcs) as Hr.
    symmetry. apply (Z.div_unique_pos _ _ _ (pos.1 - cs * Z.of_nat n)); lia. }
  assert (0 <= pos.2 `div` cs ∧ pos.2 `div` cs * cs <= pos.2) as [Hj Hjc].
  { pose proof (Z.div_mod pos.2 cs ltac:(lia)) as Hdm.
    pose proof (Z.mod_pos_bound pos.2 cs Hcs) as Hr.
    split; [apply Z.div_pos; lia|lia]. }
  assert (Pygame.motion_guard cs x_size y_size (Pygame.cell_at cs pos) = true)
    as Hguard.
  { unfold Pygame.motion_guard, Pygame.cell_at. cbn [fst snd]. rewrite Hi.
    rewrite !andb_true_iff, !Z.ltb_lt. lia. }
  assert (∀ v g, rect n m g ->
            setitem g (pos.1 `div` cs) (pos.2 `div` cs) v = Raise IndexError)
    as Hraise.
  { intros v g Hg. apply (setitem_raise n m); [done|]. rewrite Hi. lia. }
  split; [done|].
  unfold Pygame.mouse_motion, Pygame.mouse_button_down.
  unfold Pygame.cell_at in *. cbn [fst snd] in *. rewrite Hguard.
  split; [|split; cbn; by apply Hraise].
  destruct left, right; try done; cbn [andb];
    rewrite ?Hraise by done; rewrite ?bind_Return; rewrite ?Hraise by done; done.
Qed.

Lemma X11_painting_partial_cell_witness :
  (0 < 10 ∧ Z.of_nat 2 = 25 `div` 10 ∧ rect 2 2 (zeros 2 2)
   ∧ Z.of_nat 2 * 10 <= 22 < 25 ∧ 0 <= 3 < 20 ∧ true || false = true)
  ∧ Pygame.mouse_motion 10 25 20 (22, 3) true false (zeros 2 2) = Raise IndexError.
Proof.
  assert (0 < 10) as H1 by lia.
  assert (Z.of_nat 2 = 25 `div` 10) as H2 by reflexivity.
  assert (rect 2 2 (zeros 2 2)) as H3 by apply zeros_rect.
  assert (Z.of_nat 2 * 10 <= (22, 3).1 < 25) as H4 by (cbn; lia).
  assert (0 <= (22, 3).2 < 20) as H5 by (cbn; lia).
  assert (true || false = true) as H6 by reflexivity.
  split; [by repeat (split; [assumption|])|].
  exact (proj1 (proj2 (X11_painting_partial_cell 10 25 20 2 2 (zeros 2 2) (22, 3)
                         true false H1 H2 H3 H4 H5 H6))).
Defined.

(** ** Generations in a row *)

Lemma game_of_life_binary (n m : nat) (a : ndarray) :
  rect n m a -> binary a ->
  ∃ g, Torus.game_of_life n m a = Return g ∧ rect n m g ∧ binary g
       ∧ (all_dead a -> g = a).
Proof.
  intros Ha Hb.
  destruct (game_of_life_spec n m a Ha) as (g & Hrun & Hrect & Hcells).
  exists g. split; [done|]. split; [done|]. split.
  - apply (binary_of_cells n m); [done|].
    intros i j Hi Hj. destruct (Hcells i j Hi Hj) as (nb & _ & ->).
    by destruct (next_wrap_conway (cell a i j) nb (binary_cell _ i j Hb))
      as (_ & _ & Hc).
  - intros Hd. apply (rect_ext n m); [done|done|].
    intros i j Hi Hj. destruct (Hcells i j Hi Hj) as (nb & Hnb & ->).
    rewrite (neighbors_wrap n m a Ha i j Hb Hi Hj) in Hnb.
    injection Hnb as <-. unfold wrap_count.
    by rewrite (count_alive_all_dead _ _ Hd), (all_dead_cell a i j Hd).
Qed.

Lemma initial_grid_rect (random_image : string) (draw : nat -> nat -> bool)
    (n m : nat) :
  rect n m (Pygame.initial_grid random_image draw n m)
  ∧ binary (Pygame.initial_grid random_image draw n m)
  ∧ (random_image ≠ "y" -> all_dead (Pygame.initial_grid random_image draw n m)).
Proof.
  unfold Pygame.initial_grid, range. split; [split|split].
  - by rewrite length_fmap, length_seq.
  - apply Forall_fmap, Forall_true. intros i. cbn.
    by rewrite length_fmap, length_seq.
  - apply Forall_fmap, Forall_true. intros i. cbn.
    apply Forall_fmap, Forall_true. intros j. cbn.
    destruct (bool_decide _), (draw i j); cbn; auto.
  - intros Hno. rewrite bool_decide_eq_false_2 by done.
    apply Forall_fmap, Forall_true. intros i. cbn.
    apply Forall_fmap, Forall_true. intros j. cbn.
    by destruct (draw i j).
Qed.

(** X12.  The simulation of [main] never raises: from the grid it starts
    with, any number of generations is computed, and the grid stays a binary
    array of the extent chosen at the start.  Unless the answer to
    "random(y/n)" is "y" the first grid has no alive cell, and it is then
    the same grid after every number of generations. *)
Theorem X12_simulation_runs (random_image : string) (draw : nat -> nat -> bool)
    (n m k : nat) :
  let start := Pygame.initial_grid random_image draw n m in
  rect n m start ∧ binary start
  ∧ (∃ g, Pygame.generations n m k start = Return g ∧ rect n m g ∧ binary g)
  ∧ (random_image ≠ "y" ->
       all_dead start ∧ Pygame.generations n m k start = Return start).
Proof.
  intros start.
  destruct (initial_grid_rect random_image draw n m) as (Hrect & Hbin & Hdead).
  fold start in Hrect, Hbin, Hdead.
  split; [done|]. split; [done|]. split.
  - revert Hrect Hbin. generalize start.
    induction k as [|k IH]; intros a Ha Hb; [by exists a|].
    destruct (game_of_life_binary n m a Ha Hb) as (g & Hrun & Hg & Hbg & _).
    destruct (IH g Hg Hbg) as (g' & Hrun' & Hg' & Hbg').
    exists g'. cbn [Pygame.generations]. by rewrite Hrun, bind_Return.
  - intros Hno. specialize (Hdead Hno). split; [done|].
    induction k as [|k IH]; [done|].
    destruct (game_of_life_binary n m start Hrect Hbin) as (g & Hrun & _ & _ & Hsame).
    cbn [Pygame.generations]. rewrite Hrun, bind_Return.
    by rewrite (Hsame Hdead).
Qed.

Lemma X12_simulation_runs_witness :
  "n" ≠ "y"
  ∧ Pygame.generations 3 4 5 (Pygame.initial_grid "n" (fun _ _ => true) 3 4)
    = Return (Pygame.initial_grid "n" (fun _ _ => true) 3 4).
Proof.
  assert ("n" ≠ "y") as H1 by discriminate.
  split; [exact H1|].
  exact (proj2 (proj2 (proj2 (proj2
           (X12_simulation_runs "n" (fun _ _ => true) 3 4 5))) H1)).
Defined.

Lemma update_dead (self : GameOfLife) :
  well_shaped self -> all_dead (grid self) ->
  update self
  = (Return (),
     mkGameOfLife (width self) (height self) (grid self) (generation self + 1)
       (pushed (history self) (grid self)) (boundary_type self)).
Proof.
  intros Hshape Hd.
  destruct (update_spec self Hshape) as (g & Hrun & Hrect & Hcells).
  rewrite Hrun. do 2 f_equal.
  apply (rect_ext (height self) (width self)); [done|done|].
  intros i j Hi Hj. destruct (Hcells i j Hi Hj) as (nb & Hnb & ->).
  rewrite (count_neighbors_fixed self Hshape i j (all_dead_binary _ Hd) Hi Hj) in Hnb.
  injection Hnb as <-. unfold fixed_count.
  by rewrite (count_alive_all_dead _ _ Hd), (all_dead_cell _ i j Hd).
Qed.

Lemma fill_zero (h w : nat) (a : ndarray) : rect h w a -> fill a 0 = zeros h w.
Proof.
  intros Ha. apply (rect_ext h w); [by apply fill_rect|apply zeros_rect|].
  intros i j Hi Hj.
  by rewrite (all_dead_cell _ i j (fill_zero_dead a)),
             (all_dead_cell _ i j (zeros_dead h w)).
Qed.

(** X13.  After [clear] on a well-shaped engine the grid is the all-zero
    array of the recorded extent, and it is still that array after any number
    of steps, each of which returns normally and counts as a generation. *)
Theorem X13_clear_then_steps (self : GameOfLife) (k : nat) :
  well_shaped self ->
  grid (snd (clear self)) = zeros (height self) (width self)
  ∧ grid (steps k (snd (clear self))) = zeros (height self) (width self)
  ∧ generation (steps k (snd (clear self))) = generation self + Z.of_nat k
  ∧ fst (update (steps k (snd (clear self)))) = Return ().
Proof.
  intros Hshape.
  assert (grid (snd (clear self)) = zeros (height self) (width self)) as Hclear
    by (cbn [clear snd set_grid grid]; by apply fill_zero).
  split; [done|].
  assert (grid (steps k (snd (clear self))) = zeros (height self) (width self)
          ∧ generation (steps k (snd (clear self))) = generation self + Z.of_nat k
          ∧ width (steps k (snd (clear self))) = width self
          ∧ height (steps k (snd (clear self))) = height self)
    as (Hg & Hgen & Hw & Hh).
  { induction k as [|k (IHg & IHgen & IHw & IHh)].
    - cbn [steps Nat.iter]. split; [done|]. cbn. split; [lia|done].
    - change (steps (S k) (snd (clear self)))
        with (snd (update (steps k (snd (clear self))))).
      rewrite update_dead.
      + cbn [snd grid generation width height]. split; [done|]. split; [lia|done].
      + unfold well_shaped. rewrite IHg, IHw, IHh. apply zeros_rect.
      + rewrite IHg. apply zeros_dead. }
  split; [done|]. split; [done|].
  rewrite update_dead; [done| |].
  - unfold well_shaped. rewrite Hg, Hw, Hh. apply zeros_rect.
  - rewrite Hg. apply zeros_dead.
Qed.

Lemma X13_clear_then_steps_witness :
  let self := snd (MainWindow.place MainWindow.glider 0 0 (init 4 4)) in
  well_shaped self
  ∧ grid (steps 3 (snd (clear self))) = zeros 4 4.
Proof.
  intros self.
  assert (well_shaped self) as H1 by (unfold well_shaped, rect; by_eval).
  split; [exact H1|].
  exact (proj1 (proj2 (X13_clear_then_steps self 3 H1))).
Defined.

(** ** Placing a pattern twice *)

(** X14.  Placing a pattern that fits the grid is idempotent: placing the
    same pattern at the same target once more succeeds again and gives the
    very engine the first placement gave. *)
Theorem X14_place_idempotent (game : GameOfLife) (pattern : ndarray)
    (ph pw : nat) (i j : Z) :
  well_shaped game -> shape pattern = (ph, pw) -> rect ph pw pattern ->
  (ph <= height game)%nat -> (pw <= width game)%nat ->
  fst (MainWindow.place pattern i j game) = Return ()
  ∧ MainWindow.place pattern i j (snd (MainWindow.place pattern i j game))
    = MainWindow.place pattern i j game.
Proof.
  intros Hshape Hsh Hpat Hph Hpw.
  pose proof (clamp_origin_fits (height game) ph i Hph) as Hr.
  pose proof (clamp_origin_fits (width game) pw j Hpw) as Hc.
  destruct (setslice2_fits int8 (height game) (width game) ph pw (grid game)
              pattern
              (MainWindow.clamp_origin (height game) ph i)
              (MainWindow.clamp_origin (width game) pw j)
              Hshape Hpat Hsh ltac:(lia) ltac:(lia) ltac:(lia) ltac:(lia))
    as (g1 & Hrun1 & Hrect1 & Hcells1).
  destruct (setslice2_fits int8 (height game) (width game) ph pw g1 pattern
              (MainWindow.clamp_origin (height game) ph i)
              (MainWindow.clamp_origin (width game) pw j)
              Hrect1 Hpat Hsh ltac:(lia) ltac:(lia) ltac:(lia) ltac:(lia))
    as (g2 & Hrun2 & Hrect2 & Hcells2).
  assert (g2 = g1) as ->.
  { apply (rect_ext (height game) (width game)); [done|done|].
    intros x y Hx Hy. rewrite Hcells2, Hcells1 by done.
    by destruct (decide _). }
  assert (MainWindow.draw_and_return (set_grid game g1)
          = (Return (), set_grid game g1)) as Hdraw
    by by apply draw_and_return_well_shaped.
  assert (MainWindow.place pattern i j game = (Return (), set_grid game g1)) as Hfirst
    by (unfold MainWindow.place; by rewrite Hsh, Hrun1).
  rewrite Hfirst. split; [done|]. cbn [snd].
  unfold MainWindow.place. rewrite Hsh. cbn [height width grid set_grid].
  rewrite Hrun2. by destruct game.
Qed.

Lemma X14_place_idempotent_witness :
  let game := snd (update (snd (MainWindow.place MainWindow.glider 2 2 (init 6 6)))) in
  (well_shaped game ∧ shape MainWindow.beehive = (3%nat, 4%nat)
   ∧ rect 3 4 MainWindow.beehive ∧ (3 <= height game)%nat ∧ (4 <= width game)%nat)
  ∧ MainWindow.place MainWindow.beehive 9 1
      (snd (MainWindow.place MainWindow.beehive 9 1 game))
    = MainWindow.place MainWindow.beehive 9 1 game.
Proof.
  intros game.
  assert (well_shaped game) as H1 by (unfold well_shaped, rect; by_eval).
  assert (shape MainWindow.beehive = (3%nat, 4%nat)) as H2 by reflexivity.
  assert (rect 3 4 MainWindow.beehive) as H3 by (unfold rect; by_eval).
  assert (3 <= height game)%nat as H4 by (change (height game) with 6%nat; lia).
  assert (4 <= width game)%nat as H5 by (change (width game) with 6%nat; lia).
  split; [by repeat (split; [assumption|])|].
  exact (proj2 (X14_place_idempotent game MainWindow.beehive 3 4 9 1 H1 H2 H3 H4 H5)).
Defined.

(** ** Drawing the grid *)

Lemma for_in_collect {B : Type} (f : nat -> list B)
    (body : nat -> list B -> outcome (list B)) (n : nat) (s : list B) :
  (∀ k t, (k < n)%nat -> body k t = Return (t ++ f k)) ->
  for_in (range n) body s = Return (s ++ concat (f <$> range n)).
Proof.
  intros Hbody.
  destruct (for_in_range_inv (fun k t => t = s ++ concat (f <$> seq 0 k)) body n s)
    as (t & Hrun & ->).
  - cbn. by rewrite app_nil_r.
  - intros k t Hk ->. exists ((s ++ concat (f <$> seq 0 k)) ++ f k).
    split; [by apply Hbody|].
    rewrite seq_S, fmap_app, concat_app. cbn. by rewrite app_nil_r, app_assoc.
  - done.
Qed.

Lemma draw_cells_spec (cs : Z) (game : GameOfLife) (scene : list GameView.item) :
  well_shaped game ->
  GameView.draw_cells cs game scene = Return (scene ++ cell_rects cs game).
Proof.
  intros Hshape. unfold GameView.draw_cells, cell_rects.
  apply (for_in_collect (fun i => row_rects cs (grid game) i (width game))).
  intros i sc Hi. unfold row_rects.
  apply (for_in_collect
           (fun j => if negb (cell (grid game) i j =? 0)
                     then [GameView.RectItem (Z.of_nat j * cs) (Z.of_nat i * cs)
                             (cs - 1) (cs - 1)]
                     else [])).
  intros j sc' Hj.
  rewrite (getitem_in (height game) (width game)), bind_Return by done.
  destruct (negb _); [done|by rewrite app_nil_r].
Qed.

Lemma elem_of_concat {B : Type} (x : B) (ls : list (list B)) :
  x ∈ concat ls ↔ ∃ l, l ∈ ls ∧ x ∈ l.
Proof.
  induction ls as [|l ls IH]; cbn [concat].
  - split; [by intros ?%elem_of_nil|]. by intros (l & ?%elem_of_nil & _).
  - rewrite elem_of_app, IH. split.
    + intros [Hx|(l' & Hl' & Hx)].
      * exists l. split; [by left|done].
      * exists l'. split; [by right|done].
    + intros (l' & [->|Hl']%elem_of_cons & Hx); [by left|].
      right. by exists l'.
Qed.

Lemma elem_of_cell_rects (cs : Z) (game : GameOfLife) (it : GameView.item) :
  it ∈ cell_rects cs game
  ↔ ∃ i j, (i < height game)%nat ∧ (j < width game)%nat
           ∧ cell (grid game) i j ≠ 0
           ∧ it = GameView.RectItem (Z.of_nat j * cs) (Z.of_nat i * cs)
                    (cs - 1) (cs - 1).
Proof.
  unfold cell_rects, row_rects, range. rewrite elem_of_concat. split.
  - intros (l & (i & -> & Hi%elem_of_seq)%list_elem_of_fmap & Hit).
    apply elem_of_concat in Hit
      as (l' & (j & -> & Hj%elem_of_seq)%list_elem_of_fmap & Hit).
    exists i, j. split; [lia|]. split; [lia|].
    destruct (Z.eqb_spec (cell (grid game) i j) 0) as [Hz|Hnz]; cbn [negb] in Hit.
    + by apply elem_of_nil in Hit.
    + by apply list_elem_of_singleton in Hit.
  - intros (i & j & Hi & Hj & Hnz & ->). eexists. split.
    + apply list_elem_of_fmap. exists i. split; [done|]. apply elem_of_seq. lia.
    + apply elem_of_concat. eexists. split.
      * apply list_elem_of_fmap. exists j. split; [done|]. apply elem_of_seq. lia.
      * destruct (Z.eqb_spec (cell (grid game) i j) 0); [done|].
        by apply list_elem_of_singleton.
Qed.

Lemma count_tabulate {B : Type} (row : list Z) (G : nat -> B) :
  length (concat ((fun j : nat =>
                     if negb (default 0 (row !! j) =? 0) then [G j] else [])
                    <$> seq 0 (length row)))
  = length (filter (fun v : Z => v ≠ 0) row).
Proof.
  induction row as [|x row IH] using rev_ind; [done|].
  rewrite length_app. cbn [length]. rewrite Nat.add_1_r, seq_S, fmap_app, concat_app.
  rewrite filter_app, !length_app.
  rewrite <- IH. f_equal.
  - f_equal. f_equal. apply list_fmap_ext. intros k j Hj.
    apply lookup_seq in Hj as [-> Hk]. by rewrite lookup_app_l by done.
  - cbn [fmap list_fmap concat Nat.add]. rewrite app_nil_r.
    rewrite lookup_app_r by done. rewrite Nat.sub_diag. cbn [lookup list_lookup default from_option id].
    rewrite filter_cons, filter_nil.
    destruct (Z.eqb_spec x 0) as [->|Hx]; cbn [negb].
    + by rewrite decide_False by (intros H; apply H; done).
    + by rewrite decide_True by done.
Qed.

Lemma concat_rows_length {B : Type} (a : ndarray) (R : nat -> list B) :
  (∀ i row, a !! i = Some row ->
     length (R i) = length (filter (fun v : Z => v ≠ 0) row)) ->
  length (concat (R <$> seq 0 (length a)))
  = length (filter (fun v : Z => v ≠ 0) (concat a)).
Proof.
  induction a as [|row a IH] using rev_ind; intros HR; [done|].
  rewrite length_app. cbn [length]. rewrite Nat.add_1_r, seq_S, fmap_app, !concat_app.
  rewrite filter_app, !length_app. cbn [fmap list_fmap concat Nat.add].
  rewrite !app_nil_r. f_equal.
  - apply IH. intros i r Hr. apply HR. by rewrite lookup_app_l by by eapply lookup_lt_Some.
  - apply HR. rewrite lookup_app_r by done. by rewrite Nat.sub_diag.
Qed.

Lemma filter_nonzero_binary (l : list Z) :
  Forall (fun v : Z => v = 0 ∨ v = 1) l ->
  filter (fun v : Z => v ≠ 0) l = filter (fun v : Z => v = 1) l.
Proof.
  induction 1 as [|v l Hv _ IH]; [done|].
  rewrite !filter_cons, IH.
  destruct (decide (v ≠ 0)), (decide (v = 1)); (done || lia).
Qed.

Lemma cell_rects_length (cs : Z) (game : GameOfLife) :
  well_shaped game -> binary (grid game) ->
  Z.of_nat (length (cell_rects cs game)) = population (grid game).
Proof.
  intros Hshape Hbin. unfold population.
  rewrite <- filter_nonzero_binary by by apply Forall_concat.
  f_equal. unfold cell_rects, range. destruct Hshape as [Hl Hrows].
  rewrite <- Hl. apply concat_rows_length.
  intros i row Hrow.
  pose proof (Forall_lookup_1 _ _ _ _ Hrows Hrow) as Hlen. cbn in Hlen.
  unfold row_rects, range. rewrite <- Hlen.
  rewrite <- (count_tabulate row
                (fun j => GameView.RectItem (Z.of_nat j * cs) (Z.of_nat i * cs)
                            (cs - 1) (cs - 1))).
  do 2 f_equal. apply list_fmap_ext. intros k j _.
  unfold cell. by rewrite Hrow.
Qed.

(** X15.  [draw_grid] on a well-shaped game with a positive cell size
    returns normally.  The scene then holds, first, exactly one rectangle
    for every cell that is not zero, of side [cell_size - 1] with its corner
    at [(col * cell_size, row * cell_size)], each inside the scene rectangle
    [(0, 0, width * cell_size, height * cell_size)]; on a binary grid their
    number is the number of alive cells that [get_statistics] reports.  After
    them come the grid lines: [height + width + 2] of them when the grid is
    shown and none otherwise, every one inside the scene rectangle. *)
Theorem X15_draw_grid (cs : Z) (show_grid : bool) (game : GameOfLife) :
  well_shaped game -> 0 < cs ->
  let scene := (0, 0, Z.of_nat (width game) * cs, Z.of_nat (height game) * cs) in
  ∃ rects lines,
    GameView.draw_grid cs show_grid game = Return (rects ++ lines, scene)
    ∧ (∀ it, it ∈ rects
             ↔ ∃ i j, (i < height game)%nat ∧ (j < width game)%nat
                      ∧ cell (grid game) i j ≠ 0
                      ∧ it = GameView.RectItem (Z.of_nat j * cs) (Z.of_nat i * cs)
                               (cs - 1) (cs - 1))
    ∧ (∀ x y w h, GameView.RectItem x y w h ∈ rects -> inside scene x y w h)
    ∧ (binary (grid game) ->
         Z.of_nat (length rects)
         = Queries.alive_cells (Queries.get_statistics game))
    ∧ length lines
      = (if show_grid then height game + width game + 2 else 0)%nat
    ∧ (∀ it, it ∈ lines ->
         ∃ x1 y1 x2 y2, it = GameView.LineItem x1 y1 x2 y2
                        ∧ 0 <= x1 <= x2 ∧ x2 <= Z.of_nat (width game) * cs
                        ∧ 0 <= y1 <= y2 ∧ y2 <= Z.of_nat (height game) * cs).
Proof.
  intros Hshape Hcs scene.
  exists (cell_rects cs game),
         (if show_grid then GameView.draw_lines cs game else []).
  split; [|split; [|split; [|split; [|split]]]].
  - unfold GameView.draw_grid. by rewrite draw_cells_spec, bind_Return by done.
  - apply elem_of_cell_rects.
  - intros x y w h (i & j & Hi & Hj & _ & [= -> -> -> ->])%elem_of_cell_rects.
    unfold inside, scene. nia.
  - intros Hbin. rewrite cell_rects_length by done.
    by rewrite <- sum_population by done.
  - destruct show_grid; [|done]. unfold GameView.draw_lines, range.
    rewrite length_app, !length_fmap, !length_seq. lia.
  - intros it Hit. destruct show_grid; [|by apply elem_of_nil in Hit].
    unfold GameView.draw_lines, range in Hit.
    apply elem_of_app in Hit
      as [(i & -> & Hi%elem_of_seq)%list_elem_of_fmap
         |(j & -> & Hj%elem_of_seq)%list_elem_of_fmap];
      do 4 eexists; (split; [reflexivity|]); nia.
Qed.

Lemma X15_draw_grid_witness :
  let game := snd (MainWindow.place MainWindow.block 1 1 (init 4 3)) in
  (well_shaped game ∧ 0 < 20)
  ∧ ∃ items scene, GameView.draw_grid 20 true game = Return (items, scene)
                   ∧ length items = 13%nat
                   ∧ scene = (0, 0, 80, 60).
Proof.
  intros game.
  assert (well_shaped game) as H1 by (unfold well_shaped, rect; by_eval).
  assert (0 < 20) as H2 by lia.
  split; [by split|].
  destruct (X15_draw_grid 20 true game H1 H2)
    as (rects & lines & Hrun & _ & _ & Hcount & Hlines & _).
  exists (rects ++ lines), (0, 0, 80, 60). split; [exact Hrun|].
  split; [|reflexivity].
  assert (binary (grid game)) as Hbin by (unfold binary; by_eval).
  specialize (Hcount Hbin). rewrite length_app, Hlines.
  change (Queries.alive_cells (Queries.get_statistics game)) with 4 in Hcount.
  change (height game) with 3%nat. change (width game) with 4%nat. lia.
Defined.

(** ** The two boundaries compared *)

Lemma wrap_fixed_cell (n m : nat) (a : ndarray) (x y : Z) :
  border_dead n m a ->
  -1 <= x <= Z.of_nat n -> -1 <= y <= Z.of_nat m ->
  (1 <= n)%nat -> (1 <= m)%nat ->
  cell_fixed n m a (x, y) = cellZ a (x `mod` Z.of_nat n, y `mod` Z.of_nat m).
Proof.
  intros Hborder Hx Hy Hn Hm.
  assert (0 <= x `mod` Z.of_nat n < Z.of_nat n) as Hxm
    by (apply Z.mod_pos_bound; lia).
  assert (0 <= y `mod` Z.of_nat m < Z.of_nat m) as Hym
    by (apply Z.mod_pos_bound; lia).
  assert (∀ (k : nat) z, (1 <= k)%nat -> -1 <= z <= Z.of_nat k ->
            ¬ (0 <= z < Z.of_nat k) ->
            z `mod` Z.of_nat k = 0 ∨ z `mod` Z.of_nat k = Z.of_nat k - 1) as Hedge.
  { intros k z Hk Hz Hout.
    destruct (decide (z = -1)) as [->|Hz'].
    - right. symmetry. apply (Z.mod_unique_pos _ _ (-1)); lia.
    - left. replace z with (Z.of_nat k) by lia. apply Z_mod_same_full. }
  unfold cell_fixed, in_grid, cellZ. cbn [fst snd].
  destruct (decide (0 <= x < Z.of_nat n)) as [Hxin|Hxout];
    destruct (decide (0 <= y < Z.of_nat m)) as [Hyin|Hyout].
  - rewrite !bool_decide_eq_true_2 by done. cbn [andb].
    by rewrite !Z.mod_small by done.
  - rewrite (bool_decide_eq_false_2 (0 <= y < _)) by done.
    rewrite andb_false_r. symmetry. apply Hborder; [lia|lia|].
    destruct (Hedge m y Hm Hy Hyout); lia.
  - rewrite (bool_decide_eq_false_2 (0 <= x < _)) by done. cbn [andb].
    symmetry. apply Hborder; [lia|lia|].
    destruct (Hedge n x Hn Hx Hxout); lia.
  - rewrite (bool_decide_eq_false_2 (0 <= x < _)) by done. cbn [andb].
    symmetry. apply Hborder; [lia|lia|].
    destruct (Hedge n x Hn Hx Hxout); lia.
Qed.

Lemma wrap_fixed_sum (n m : nat) (a : ndarray) (i j : nat) :
  border_dead n m a -> (i < n)%nat -> (j < m)%nat ->
  Zsum (cell_fixed n m a <$> around (Z.of_nat i) (Z.of_nat j))
  = Zsum (cellZ a <$> moore_wrap n m (Z.of_nat i) (Z.of_nat j)).
Proof.
  intros Hborder Hi Hj. unfold around, moore_wrap, offsets8.
  cbn [fmap list_fmap fst snd].
  by rewrite !(wrap_fixed_cell n m a) by (done || lia).
Qed.

(** X16.  The two files compute the same generation on a binary grid
    whose first and last rows and columns are dead: [game_of_life] of
    [GameOfLife.py], which wraps at the edges, returns the very grid that
    [update] of [game_of_life.py], which cuts at the edges, installs. *)
Theorem X16_boundaries_agree (self : GameOfLife) :
  well_shaped self -> binary (grid self) ->
  border_dead (height self) (width self) (grid self) ->
  Torus.game_of_life (height self) (width self) (grid self)
  = Return (grid (snd (update self))).
Proof.
  intros Hshape Hbin Hborder.
  destruct (update_spec self Hshape) as (g & -> & Hrect & Hcells).
  destruct (game_of_life_spec _ _ _ Hshape) as (g' & -> & Hrect' & Hcells').
  cbn [snd grid]. f_equal.
  apply (rect_ext (height self) (width self)); [done|done|].
  intros i j Hi Hj.
  destruct (Hcells i j Hi Hj) as (nb & Hnb & ->).
  destruct (Hcells' i j Hi Hj) as (nb' & Hnb' & ->).
  rewrite (count_neighbors_sum self Hshape i j Hi Hj) in Hnb.
  rewrite (neighbors_sum _ _ _ Hshape i j Hi Hj) in Hnb'.
  assert (nb = Zsum (cell_fixed (height self) (width self) (grid self)
                       <$> around (Z.of_nat i) (Z.of_nat j))) as ->
    by congruence.
  assert (nb' = Zsum (cellZ (grid self)
                        <$> moore_wrap (height self) (width self)
                              (Z.of_nat i) (Z.of_nat j))) as ->
    by congruence.
  rewrite (wrap_fixed_sum _ _ _ i j Hborder Hi Hj).
  unfold next_wrap, next_fixed.
  by destruct (binary_cell (grid self) i j Hbin) as [-> | ->].
Qed.

Lemma X16_boundaries_agree_witness :
  let self := snd (MainWindow.place MainWindow.glider 1 1 (init 6 6)) in
  (well_shaped self ∧ binary (grid self)
   ∧ border_dead (height self) (width self) (grid self))
  ∧ Torus.game_of_life 6 6 (grid self) = Return (grid (snd (update self))).
Proof.
  intros self.
  assert (well_shaped self) as H1 by (unfold well_shaped, rect; by_eval).
  assert (binary (grid self)) as H2 by (unfold binary; by_eval).
  assert (border_dead (height self) (width self) (grid self)) as H3.
  { intros i j Hi Hj Hedge.
    change (height self) with 6%nat in *. change (width self) with 6%nat in *.
    assert (i = 0 ∨ i = 1 ∨ i = 2 ∨ i = 3 ∨ i = 4 ∨ i = 5)%nat as Hic by lia.
    assert (j = 0 ∨ j = 1 ∨ j = 2 ∨ j = 3 ∨ j = 4 ∨ j = 5)%nat as Hjc by lia.
    destruct Hic as [ -> | [ -> | [ -> | [ -> | [ -> | -> ] ] ] ] ];
      destruct Hjc as [ -> | [ -> | [ -> | [ -> | [ -> | -> ] ] ] ] ];
      first [reflexivity | cbn in Hedge; lia]. }
  split; [by repeat (split; [assumption|])|].
  exact (X16_boundaries_agree self H1 H2 H3).
Defined.
